(** * Particle-life simulation: the force law and the integrator kernel

    A shallow embedding of [particleSimulation.cu]: the device functions
    [length], [normalize], [calculateForce], the kernels [initParticles] and
    [updateParticles], and the attraction-matrix loop of [main].

    The source computes on [float].  The embedding is written once over an
    interface of the arithmetic the source uses ([FloatOps]) and read at two
    instances: IEEE binary32 ([binary32], executable), and the real numbers
    ([R]), which is the reading of the specification ("real-valued"
    coordinates, limits, exact intervals). *)

From Stdlib Require Import ZArith Reals Lra Lia List Bool.
From Stdlib Require Import Floats.SpecFloat.
From stdpp Require Import base list.

(** ** The arithmetic of the source *)

Class FloatOps (F : Type) : Type := {
  of_int : Z -> F;          (* an [int] or float literal used as a [float] *)
  fadd : F -> F -> F;
  fsub : F -> F -> F;
  fmul : F -> F -> F;
  fdiv : F -> F -> F;
  sqrtf : F -> F;
  fltb : F -> F -> bool;    (* [a < b]; [a > b] is [fltb b a] *)
}.

Declare Scope float_scope.
Delimit Scope float_scope with fl.
Notation "a + b" := (fadd a b) : float_scope.
Notation "a - b" := (fsub a b) : float_scope.
Notation "a * b" := (fmul a b) : float_scope.
Notation "a / b" := (fdiv a b) : float_scope.
Notation "a <? b" := (fltb a b) : float_scope.
Notation "a >? b" := (fltb b a) : float_scope.

(** IEEE 754 binary32, round to nearest even: the [float] of the device. *)
Module Binary32.
Definition prec : Z := 24.
Definition emax : Z := 128.
Definition binary32 : Type := spec_float.

Definition of_int (z : Z) : binary32 :=
  match z with
  | Z0 => S754_zero false
  | Zpos p => binary_normalize prec emax (Zpos p) 0 false
  | Zneg p => binary_normalize prec emax (Zneg p) 0 true
  end.

(** [m * 2^e], for writing dyadic test data. *)
Definition dyadic (m e : Z) : binary32 :=
  binary_normalize prec emax m e false.

#[export] Instance binary32_ops : FloatOps binary32 := {
  of_int := of_int;
  fadd := SFadd prec emax;
  fsub := SFsub prec emax;
  fmul := SFmul prec emax;
  fdiv := SFdiv prec emax;
  sqrtf := SFsqrt prec emax;
  fltb := SFltb;
}.
End Binary32.

(** The real numbers: exact arithmetic, [x / 0] left as [x * / 0]. *)
Module Real.
Definition Rltb (a b : R) : bool := if Rlt_dec a b then true else false.

#[export] Instance R_ops : FloatOps R := {
  of_int := IZR;
  fadd := Rplus;
  fsub := Rminus;
  fmul := Rmult;
  fdiv := Rdiv;
  sqrtf := sqrt;
  fltb := Rltb;
}.
End Real.

(** ** Data model *)

Record float3 (F : Type) : Type := make_float3 { x : F; y : F; z : F }.
Arguments make_float3 {F} _ _ _.
Arguments x {F} _.
Arguments y {F} _.
Arguments z {F} _.

Record Particle (F : Type) : Type := mkParticle {
  position : float3 F;
  velocity : float3 F;
  color : Z;
}.
Arguments mkParticle {F} _ _ _.
Arguments position {F} _.
Arguments velocity {F} _.
Arguments color {F} _.

(** ** Device functions *)

Module Sim.
Section Device.
Context {F : Type} `{FloatOps F}.
Local Open Scope float_scope.

Definition length (v : float3 F) : F :=
  sqrtf (x v * x v + y v * y v + z v * z v).

Definition normalize (v : float3 F) : float3 F :=
  let len := length v in
  if len >? of_int 0
  then make_float3 (x v / len) (y v / len) (z v / len)
  else v.

Definition calculateForce (distance attractionFactor beta : F) : F :=
  if distance <? beta then
    (distance / beta) - of_int 1
  else if distance <? of_int 1 then
    attractionFactor *
      (of_int 1 - (of_int 2 * distance - of_int 1 - beta) / (of_int 1 - beta))
  else
    of_int 0.
End Device.
End Sim.

(** ** The kernels *)

Section Kernels.
Context {F : Type} `{FloatOps F}.
Local Open Scope float_scope.
Import Sim.

(** [attractionMatrix[k]] for an [int] index.  A read outside the array is
    undefined in the source; the model yields 0 there. *)
Definition readMatrix (attractionMatrix : list F) (k : Z) : F :=
  if (k <? 0)%Z then of_int 0
  else default (of_int 0) (attractionMatrix !! Z.to_nat k).

(** Body of the [j] loop of [updateParticles] for one [other] particle
    (source lines 90-102): the new value of the accumulator [force]. *)
Definition accumulate (attractionMatrix : list F) (numColors : Z) (beta : F)
    (self other : Particle F) (force : float3 F) : float3 F :=
  let diff := make_float3 (x (position other) - x (position self))
                          (y (position other) - y (position self))
                          (z (position other) - z (position self)) in
  let distance := length diff in
  if distance <? of_int 1 then
    let color_i := color self in
    let color_j := color other in
    let attractionFactor :=
      readMatrix attractionMatrix (color_i * numColors + color_j)%Z in
    let forceMagnitude := calculateForce distance attractionFactor beta in
    make_float3 (x force + forceMagnitude * x (normalize diff))
                (y force + forceMagnitude * y (normalize diff))
                (z force + forceMagnitude * z (normalize diff))
  else force.

(** The loop [for (j = 0; j < numParticles; j++) if (j != idx) ...]
    (source lines 83-104), reading the array as it is when the thread runs.
    A read [particles[j]] outside the array is undefined in the source; the
    model skips it. *)
Definition forceLoop (attractionMatrix : list F) (numColors : Z) (beta : F)
    (particles : list (Particle F)) (numParticles idx : nat)
    (self : Particle F) : float3 F :=
  fold_left
    (fun force j =>
       if (j =? idx)%nat then force
       else match particles !! j with
            | Some other => accumulate attractionMatrix numColors beta self other force
            | None => force
            end)
    (seq 0 numParticles)
    (make_float3 (of_int 0) (of_int 0) (of_int 0)).

(** Source lines 106-110: friction, then the velocity and the position
    advanced with the accumulated [force]. *)
Definition move (deltaTime frictionFactor : F) (self : Particle F)
    (force : float3 F) : Particle F :=
  let velocity1 := make_float3 (x (velocity self) * frictionFactor)
                               (y (velocity self) * frictionFactor)
                               (z (velocity self) * frictionFactor) in
  let acceleration := force in
  let velocity2 := make_float3 (x velocity1 + x acceleration * deltaTime)
                               (y velocity1 + y acceleration * deltaTime)
                               (z velocity1 + z acceleration * deltaTime) in
  let position1 := make_float3 (x (position self) + x velocity2 * deltaTime)
                               (y (position self) + y velocity2 * deltaTime)
                               (z (position self) + z velocity2 * deltaTime) in
  mkParticle position1 velocity2 (color self).

(** Source lines 112-123: the six tests on [self.position], in the order of
    the source; the second test of an axis reads what the first has left. *)
Definition wrap (self : Particle F) : Particle F :=
  let px := x (position self) in
  let px := if px >? of_int 1 then of_int (-1) else px in
  let px := if px <? of_int (-1) then of_int 1 else px in
  let py := y (position self) in
  let py := if py >? of_int 1 then of_int (-1) else py in
  let py := if py <? of_int (-1) then of_int 1 else py in
  let pz := z (position self) in
  let pz := if pz >? of_int 1 then of_int (-1) else pz in
  let pz := if pz <? of_int (-1) then of_int 1 else pz in
  mkParticle (make_float3 px py pz) (velocity self) (color self).

Definition integrate (deltaTime frictionFactor : F) (self : Particle F)
    (force : float3 F) : Particle F :=
  wrap (move deltaTime frictionFactor self force).

(** The value thread [idx] leaves in [particles[idx]]. *)
Definition newParticle (attractionMatrix : list F) (numParticles : nat)
    (deltaTime : F) (numColors : Z) (beta frictionFactor : F)
    (idx : nat) (particles : list (Particle F)) (self : Particle F) : Particle F :=
  integrate deltaTime frictionFactor self
    (forceLoop attractionMatrix numColors beta particles numParticles idx self).

(** One thread of the kernel [updateParticles]: [self] is a reference into
    the array, so the thread overwrites slot [idx] of the array it reads.  An
    index below [numParticles] but outside the array is undefined in the
    source; the model leaves the array as it is. *)
Definition updateParticles (attractionMatrix : list F) (numParticles : nat)
    (deltaTime : F) (numColors : Z) (beta frictionFactor : F)
    (idx : nat) (particles : list (Particle F)) : list (Particle F) :=
  if (idx <? numParticles)%nat then
    match particles !! idx with
    | Some self =>
        <[idx := newParticle attractionMatrix numParticles deltaTime numColors
                   beta frictionFactor idx particles self]> particles
    | None => particles
    end
  else particles.

(** A kernel launch.  The device runs the threads of a grid concurrently;
    the model runs them one after the other, in the order given. *)
Definition launch {A : Type} (kernel : nat -> A -> A) (order : list nat) (mem : A) : A :=
  fold_left (fun mem idx => kernel idx mem) order mem.

(** The grid of [kernel<<<blocksPerGrid, threadsPerBlock>>>] in index order.
    These are the values of [idx] for grids of fewer than 2^31 threads, where
    the 32-bit arithmetic of the source does not wrap. *)
Definition grid (blocksPerGrid threadsPerBlock : nat) : list nat :=
  seq 0 (blocksPerGrid * threadsPerBlock).
End Kernels.

(** ** Initialisation and the host loop *)

Section Host.
Context {F : Type} `{FloatOps F}.
Local Open Scope float_scope.

(** cuRAND is a library of the device: its generator is taken as given.
    [curand_init seed sequence offset] sets a state up, [curand_uniform]
    draws from it and advances it. *)
Variable curandState : Type.
Variable curand_init : Z -> nat -> Z -> curandState.
Variable curand_uniform : curandState -> F * curandState.

(** What thread [idx] of the kernel [initParticles] writes (source lines
    24-29); the three draws are taken in the order the arguments of
    [make_float3] are written. *)
Definition initialParticle (numColors : Z) (seed : Z) (idx : nat) : Particle F :=
  let state := curand_init seed idx 0 in
  let '(u1, state) := curand_uniform state in
  let '(u2, state) := curand_uniform state in
  let '(u3, state) := curand_uniform state in
  mkParticle
    (make_float3 (u1 * of_int 2 - of_int 1)
                 (u2 * of_int 2 - of_int 1)
                 (u3 * of_int 2 - of_int 1))
    (make_float3 (of_int 0) (of_int 0) (of_int 0))
    (Z.rem (Z.of_nat idx) numColors).

(** One thread of the kernel [initParticles]. *)
Definition initParticles (numParticles : nat) (numColors : Z) (seed : Z)
    (idx : nat) (particles : list (Particle F)) : list (Particle F) :=
  if (idx <? numParticles)%nat then
    <[idx := initialParticle numColors seed idx]> particles
  else particles.

(** [for (int i = 0; i < n; i++) body]. *)
Definition for_loop {A : Type} (n : nat) (body : nat -> A -> A) (a : A) : A :=
  fold_left (fun a i => body i a) (seq 0 n) a.

(** The attraction matrix of [main] (source lines 234-242), written into
    the array [attractionMatrix] of [numColors * numColors] floats. *)
Definition buildAttractionMatrix (numColors : nat) (attractionMatrix : list F) : list F :=
  for_loop numColors (fun i attractionMatrix =>
    for_loop numColors (fun j attractionMatrix =>
      <[(i * numColors + j)%nat :=
          if (i =? j)%nat then of_int 1 else of_int (-1)]> attractionMatrix)
      attractionMatrix)
    attractionMatrix.

(** Device memory that the frame loop of [main] works on. *)
Record Device : Type := mkDevice {
  d_particles : list (Particle F);
  d_attractionMatrix : list F;
}.

(** One iteration of the [while] loop of [main]: one launch of
    [updateParticles] over the whole grid. *)
Definition frame (blocksPerGrid threadsPerBlock numParticles : nat)
    (deltaTime : F) (numColors : Z) (beta frictionFactor : F) (dev : Device) : Device :=
  mkDevice
    (launch (updateParticles (d_attractionMatrix dev) numParticles deltaTime
               numColors beta frictionFactor)
            (grid blocksPerGrid threadsPerBlock) (d_particles dev))
    (d_attractionMatrix dev).

Fixpoint frames (n : nat) (blocksPerGrid threadsPerBlock numParticles : nat)
    (deltaTime : F) (numColors : Z) (beta frictionFactor : F) (dev : Device) : Device :=
  match n with
  | O => dev
  | S n => frames n blocksPerGrid threadsPerBlock numParticles deltaTime
             numColors beta frictionFactor
             (frame blocksPerGrid threadsPerBlock numParticles deltaTime
                numColors beta frictionFactor dev)
  end.
End Host.
Arguments mkDevice {F} _ _.
Arguments d_particles {F} _.
Arguments d_attractionMatrix {F} _.

(** ** The colour palette and the launch configuration *)

(** CUDA's [float4]; its fields are [x], [y], [z], [w] in the source. *)
Record float4 (F : Type) : Type := make_float4 { x4 : F; y4 : F; z4 : F; w4 : F }.
Arguments make_float4 {F} _ _ _ _.
Arguments x4 {F} _.
Arguments y4 {F} _.
Arguments z4 {F} _.
Arguments w4 {F} _.

Section Palette.
Context {F : Type} `{FloatOps F}.
Variable curandState : Type.
Variable curand_init : Z -> nat -> Z -> curandState.
Variable curand_uniform : curandState -> F * curandState.

(** What thread [idx] of the kernel [initColors] writes (source lines
    38-41); the draws are taken in the written order of the arguments. *)
Definition initialColor (seed : Z) (idx : nat) : float4 F :=
  let state := curand_init seed idx 0 in
  let '(u1, state) := curand_uniform state in
  let '(u2, state) := curand_uniform state in
  let '(u3, state) := curand_uniform state in
  make_float4 u1 u2 u3 (of_int 1).

(** One thread of the kernel [initColors]. *)
Definition initColors (numColors : Z) (seed : Z) (idx : nat)
    (colors : list (float4 F)) : list (float4 F) :=
  if (Z.of_nat idx <? numColors)%Z then
    <[idx := initialColor seed idx]> colors
  else colors.
End Palette.

(** [blocksPerGrid = (numParticles + threadsPerBlock - 1) / threadsPerBlock]
    (source line 229). *)
Definition blocksPerGridFor (numParticles threadsPerBlock : nat) : nat :=
  (numParticles + threadsPerBlock - 1) / threadsPerBlock.

(** [int idx = blockIdx.x * blockDim.x + threadIdx.x] (source lines 21, 35,
    80): the builtins are 32-bit unsigned, so the sum is taken modulo 2^32 and
    then converted to [int]. *)
Definition threadIndex (blockIdx blockDim threadIdx : Z) : Z :=
  let unsigned := ((blockIdx * blockDim + threadIdx) mod 2 ^ 32)%Z in
  if (unsigned <? 2 ^ 31)%Z then unsigned else (unsigned - 2 ^ 32)%Z.

(** The values of [idx] over the threads of
    [kernel<<<blocksPerGrid, threadsPerBlock>>>], block by block. *)
Definition gridIndices (blocksPerGrid threadsPerBlock : nat) : list Z :=
  flat_map
    (fun blockIdx =>
       map (fun threadIdx =>
              threadIndex (Z.of_nat blockIdx) (Z.of_nat threadsPerBlock)
                (Z.of_nat threadIdx))
           (seq 0 threadsPerBlock))
    (seq 0 blocksPerGrid).

(** The displacement [diff] of the [j] loop (source line 91). *)
Definition displacement {F : Type} `{FloatOps F} (self other : Particle F) : float3 F :=
  make_float3 (x (position other) - x (position self))%fl
              (y (position other) - y (position self))%fl
              (z (position other) - z (position self))%fl.

(** No two particles of the array within the interaction radius 1.0 of each
    other. *)
Definition farApart (particles : list (Particle R)) : Prop :=
  forall (i j : nat) p q, particles !! i = Some p -> particles !! j = Some q ->
    i <> j ->
    (1 <= Sim.length (H := Real.R_ops) (displacement (H := Real.R_ops) p q))%R.

(** Every component of [v] within [b] of zero. *)
Definition within (b : R) (v : float3 R) : Prop :=
  (- b <= x v <= b /\ - b <= y v <= b /\ - b <= z v <= b)%R.

(** A particle at rest inside the domain. *)
Definition atRest (p : Particle R) : Prop :=
  velocity p = make_float3 0%R 0%R 0%R /\
  (-1 <= x (position p) <= 1)%R /\ (-1 <= y (position p) <= 1)%R /\
  (-1 <= z (position p) <= 1)%R.

(** The constants of the source. *)
Module Reference.
Definition numParticles : nat := 10000.
Definition numColors : nat := 5.
Definition threadsPerBlock : nat := 256.
Definition blocksPerGrid : nat := (numParticles + threadsPerBlock - 1) / threadsPerBlock.
Definition deltaTime : R := (4 / 10000)%R.
Definition beta : R := (1 / 10)%R.
Definition frictionFactor : R := (99 / 100)%R.
End Reference.

(** ** Arithmetic that records a division by zero

    The same code can be run on reals that remember whether a division by
    zero took part in computing them: [None] is the result of such a division
    and of every operation one of whose operands is [None]. *)
Module Checked.
Definition lift2 (f : R -> R -> R) (a b : option R) : option R :=
  match a, b with
  | Some a, Some b => Some (f a b)
  | _, _ => None
  end.

Definition cdiv (a b : option R) : option R :=
  match a, b with
  | Some a, Some b => if Req_dec_T b 0 then None else Some (a / b)%R
  | _, _ => None
  end.

Definition cltb (a b : option R) : bool :=
  match a, b with
  | Some a, Some b => Real.Rltb a b
  | _, _ => false
  end.

#[export] Instance checked_ops : FloatOps (option R) := {
  of_int := fun k => Some (IZR k);
  fadd := lift2 Rplus;
  fsub := lift2 Rminus;
  fmul := lift2 Rmult;
  fdiv := cdiv;
  sqrtf := fun a => match a with Some a => Some (sqrt a) | None => None end;
  fltb := cltb;
}.

Definition inj3 (v : float3 R) : float3 (option R) :=
  make_float3 (Some (x v)) (Some (y v)) (Some (z v)).

Definition injP (p : Particle R) : Particle (option R) :=
  mkParticle (inj3 (position p)) (inj3 (velocity p)) (color p).
End Checked.

(** The same for binary32: a division whose divisor is +0 or -0 yields
    [None]. *)
Module Checked32.
Import Binary32.

Definition isZero (a : binary32) : bool :=
  match a with
  | S754_zero _ => true
  | _ => false
  end.

Definition lift2 (f : binary32 -> binary32 -> binary32) (a b : option binary32) :
    option binary32 :=
  match a, b with
  | Some a, Some b => Some (f a b)
  | _, _ => None
  end.

Definition cdiv (a b : option binary32) : option binary32 :=
  match a, b with
  | Some a, Some b => if isZero b then None else Some (SFdiv prec emax a b)
  | _, _ => None
  end.

Definition cltb (a b : option binary32) : bool :=
  match a, b with
  | Some a, Some b => SFltb a b
  | _, _ => false
  end.

#[export] Instance checked32_ops : FloatOps (option binary32) := {
  of_int := fun k => Some (Binary32.of_int k);
  fadd := lift2 (SFadd prec emax);
  fsub := lift2 (SFsub prec emax);
  fmul := lift2 (SFmul prec emax);
  fdiv := cdiv;
  sqrtf := fun a => match a with Some a => Some (SFsqrt prec emax a) | None => None end;
  fltb := cltb;
}.

Definition inj3 (v : float3 binary32) : float3 (option binary32) :=
  make_float3 (Some (x v)) (Some (y v)) (Some (z v)).

Definition injP (p : Particle binary32) : Particle (option binary32) :=
  mkParticle (inj3 (position p)) (inj3 (velocity p)) (color p).
End Checked32.

(** ** The wrap rule in the words of the specification *)

(** "if a coordinate exceeds +1.0, set it to -1.0; if it is below -1.0, set
    it to +1.0". *)
Definition wrapAxis (c : R) : R :=
  (if Rlt_dec 1 c then -1 else if Rlt_dec c (-1) then 1 else c)%R.

(** The "Euclidean length" of a vector. *)
Definition euclid (v : float3 R) : R :=
  sqrt (x v * x v + y v * y v + z v * z v)%R.


(** A coordinate of the domain of the specification, [[-1.0, 1.0)]. *)
Definition inHalfOpen (c : R) : Prop := (-1 <= c < 1)%R.
Definition inClosed (c : R) : Prop := (-1 <= c <= 1)%R.
Definition inClosed3 (v : float3 R) : Prop :=
  inClosed (x v) /\ inClosed (y v) /\ inClosed (z v).

(** ** Test data *)

(** A particle of colour 0 on the x axis. *)
Definition onAxis {F : Type} `{FloatOps F} (px vx : F) : Particle F :=
  mkParticle (make_float3 px (of_int 0) (of_int 0))
             (make_float3 vx (of_int 0) (of_int 0)) 0.

Module RealData.
Import Real.
Local Open Scope R_scope.

(** Two particles of one colour at rest, half a unit apart. *)
Definition pair0 : list (Particle R) := [onAxis 0 0; onAxis (1 / 2) 0].

(** One step on [pair0]: one colour attracting itself, time step 1/4, beta
    1/2, no friction; threads in the given order. *)
Definition stepPair (order : list nat) : list (Particle R) :=
  launch (updateParticles [1] 2 (1 / 4) 1 (1 / 2) 1) order pair0.

(** A lone particle near the lower face, moving outwards, and the device
    memory that holds it. *)
Definition leaving : Particle R := onAxis (- (9999 / 10000)) (-1).
Definition lone : Device (F := R) := mkDevice [leaving] [1].

(** The frame loop on [lone] with the time step, beta and friction of the
    source. *)
Definition loneFrames (n : nat) : Device (F := R) :=
  frames n 1 1 1 Reference.deltaTime 1 Reference.beta
    Reference.frictionFactor lone.

(** A stand-in for the generator: the state counts the draws, every
    draw is 1/2. *)
Definition toyInit (seed : Z) (sequence : nat) (offset : Z) : nat := 0%nat.
Definition toyUniform (state : nat) : R * nat := (1 / 2, S state).

(** Two particles at rest on opposite faces of the domain. *)
Definition corners : list (Particle R) := [onAxis (-1) 0; onAxis 1 0].

(** Uninitialised palette memory of two colours. *)
Definition blankColors : list (float4 R) :=
  [make_float4 7 7 7 7; make_float4 7 7 7 7].

(** Two slots of device memory before [initParticles] has run. *)
Definition blank : list (Particle R) := [onAxis 7 7; onAxis 7 7].
End RealData.

Module FloatData.
Import Binary32.

Definition pair0 : list (Particle binary32) :=
  [onAxis (of_int 0) (of_int 0); onAxis (dyadic 1 (-1)) (of_int 0)].

Definition stepPair (order : list nat) : list (Particle binary32) :=
  launch (updateParticles [Binary32.of_int 1] 2 (dyadic 1 (-2)) 1
            (dyadic 1 (-1)) (Binary32.of_int 1)) order pair0.

(** The float nearest to [a / b]: the value of a decimal literal such as
    [0.0004f] = [ratio 4 10000]. *)
Definition ratio (a b : Z) : binary32 :=
  SFdiv prec emax (Binary32.of_int a) (Binary32.of_int b).

Definition deltaTime : binary32 := ratio 4 10000.
Definition beta : binary32 := ratio 1 10.
Definition frictionFactor : binary32 := ratio 99 100.

Definition leaving : Particle binary32 :=
  onAxis (SFopp (ratio 9999 10000)) (Binary32.of_int (-1)).

Definition loneFrames (n : nat) : Device (F := binary32) :=
  frames n 1 1 1 deltaTime 1 beta frictionFactor
    (mkDevice [leaving] [Binary32.of_int 1]).

(** A vector so short that its squared length underflows to 0. *)
Definition tiny : float3 binary32 :=
  make_float3 (dyadic 1 (-100)) (Binary32.of_int 0) (Binary32.of_int 0).

(** A vector so long that its squared length overflows to infinity. *)
Definition huge : float3 binary32 :=
  make_float3 (dyadic 1 100) (Binary32.of_int 0) (Binary32.of_int 0).

(** 1.0, and the zero vector. *)
Definition one : binary32 := Binary32.of_int 1.
Definition zero3 : float3 binary32 :=
  make_float3 (Binary32.of_int 0) (Binary32.of_int 0) (Binary32.of_int 0).
End FloatData.

(** * Properties *)

(** ** Launches over an array updated in place (any arithmetic) *)

Section InPlace.
Context {F : Type} `{FloatOps F}.
Variable attractionMatrix : list F.
Variable numParticles : nat.
Variable deltaTime : F.
Variable numColors : Z.
Variables beta frictionFactor : F.

Abbreviation kernel :=
  (updateParticles attractionMatrix numParticles deltaTime numColors beta
     frictionFactor).
Abbreviation result :=
  (newParticle attractionMatrix numParticles deltaTime numColors beta
     frictionFactor).

Lemma updateParticles_length (idx : nat) (particles : list (Particle F)) :
  length (kernel idx particles) = length particles.
Proof.
  unfold updateParticles.
  destruct (idx <? numParticles)%nat; [| reflexivity].
  destruct (particles !! idx); [apply length_insert | reflexivity].
Qed.

Lemma updateParticles_other (idx j : nat) (particles : list (Particle F)) :
  j <> idx -> kernel idx particles !! j = particles !! j.
Proof.
  intros Hne; unfold updateParticles.
  destruct (idx <? numParticles)%nat; [| reflexivity].
  destruct (particles !! idx); [| reflexivity].
  now apply list_lookup_insert_ne.
Qed.

Lemma updateParticles_self (idx : nat) (particles : list (Particle F)) :
  idx < numParticles ->
  kernel idx particles !! idx = result idx particles <$> (particles !! idx).
Proof.
  intros Hlt; unfold updateParticles.
  apply Nat.ltb_lt in Hlt; rewrite Hlt.
  destruct (particles !! idx) as [self |] eqn:Hself; cbn; [| assumption].
  apply list_lookup_insert_eq; now apply lookup_lt_Some in Hself.
Qed.

Lemma updateParticles_at (idx : nat) (particles : list (Particle F))
    (self : Particle F) :
  idx < numParticles -> particles !! idx = Some self ->
  kernel idx particles = <[idx := result idx particles self]> particles.
Proof.
  intros Hlt Hself; unfold updateParticles.
  apply Nat.ltb_lt in Hlt; now rewrite Hlt, Hself.
Qed.

Lemma launch_app {A : Type} (k : nat -> A -> A) (pre post : list nat) (mem : A) :
  launch k (pre ++ post) mem = launch k post (launch k pre mem).
Proof. unfold launch; apply fold_left_app. Qed.

Lemma launch_length (order : list nat) (particles : list (Particle F)) :
  length (launch kernel order particles) = length particles.
Proof.
  revert particles; induction order as [| idx order IH]; intros particles; cbn.
  - reflexivity.
  - fold (launch kernel order (kernel idx particles)).
    now rewrite IH, updateParticles_length.
Qed.

Lemma launch_untouched (order : list nat) (j : nat) (particles : list (Particle F)) :
  j ∉ order -> launch kernel order particles !! j = particles !! j.
Proof.
  revert particles; induction order as [| idx order IH]; intros particles Hj; cbn.
  - reflexivity.
  - fold (launch kernel order (kernel idx particles)).
    apply not_elem_of_cons in Hj as [Hne Hj].
    now rewrite IH, updateParticles_other.
Qed.

(** C1 (amended): a launch updates the array in place.  The thread of
    index [idx] writes slot [idx] only, and what it writes is computed from
    the array as the threads run before it have left it; slots of indices
    that are not run keep their value and the array keeps its length. *)
Theorem launch_in_place (pre post : list nat) (idx : nat)
    (particles : list (Particle F)) :
  idx ∉ post -> idx < numParticles ->
  length (launch kernel (pre ++ idx :: post) particles) = length particles /\
  launch kernel (pre ++ idx :: post) particles !! idx
    = result idx (launch kernel pre particles)
        <$> (launch kernel pre particles !! idx) /\
  (forall j, j ∉ pre ++ idx :: post ->
     launch kernel (pre ++ idx :: post) particles !! j = particles !! j).
Proof.
  intros Hpost Hlt; split; [apply launch_length | split].
  - rewrite launch_app; cbn.
    fold (launch kernel post (kernel idx (launch kernel pre particles))).
    rewrite launch_untouched by assumption.
    now apply updateParticles_self.
  - intros j Hj; now apply launch_untouched.
Qed.
End InPlace.


(** ** Positions over the frames *)

Section Frames.
Context {F : Type} `{FloatOps F}.
Variables blocksPerGrid threadsPerBlock numParticles : nat.
Variable deltaTime : F.
Variable numColors : Z.
Variables beta frictionFactor : F.

Abbreviation frame1 :=
  (frame blocksPerGrid threadsPerBlock numParticles deltaTime numColors beta
     frictionFactor).
Abbreviation framesN n :=
  (frames n blocksPerGrid threadsPerBlock numParticles deltaTime numColors
     beta frictionFactor).

Lemma frames_last (n : nat) (dev : Device) :
  framesN (S n) dev = frame1 (framesN n dev).
Proof.
  revert dev; induction n as [| n IH]; intros dev; [reflexivity |].
  change (framesN (S (S n)) dev) with (framesN (S n) (frame1 dev)).
  now rewrite IH.
Qed.

Lemma frames_matrix (n : nat) (dev : Device) :
  d_attractionMatrix (framesN n dev) = d_attractionMatrix dev.
Proof.
  revert dev; induction n as [| n IH]; intros dev; [reflexivity |].
  cbn; now rewrite IH.
Qed.

Lemma frames_length (n : nat) (dev : Device) :
  length (d_particles (framesN n dev)) = length (d_particles dev).
Proof.
  revert dev; induction n as [| n IH]; intros dev; [reflexivity |].
  cbn; rewrite IH; cbn; apply launch_length.
Qed.
End Frames.

(** ** The force loop leaves the thread's own particle out (any arithmetic) *)

Section SelfExclusion.
Context {F : Type} `{FloatOps F}.
Variable attractionMatrix : list F.
Variable numColors : Z.
Variable beta : F.
Variable idx : nat.
Variable self : Particle F.

Abbreviation pull :=
  (fun force other => accumulate attractionMatrix numColors beta self other force).
Abbreviation loopBody particles :=
  (fun force j =>
     if (j =? idx)%nat then force
     else match particles !! j with
          | Some other => accumulate attractionMatrix numColors beta self other force
          | None => force
          end).


End SelfExclusion.

(** ** The attraction matrix (any arithmetic) *)

Section Matrix.
Context {F : Type} `{FloatOps F}.

Lemma for_loop_S {A : Type} (n : nat) (body : nat -> A -> A) (a : A) :
  for_loop (S n) body a = body n (for_loop n body a).
Proof.
  unfold for_loop; now rewrite seq_S, fold_left_app.
Qed.

Abbreviation entry i j := (if (i =? j)%nat then of_int 1 else of_int (-1)).
Abbreviation rowLoop numColors i c :=
  (for_loop c (fun j attractionMatrix =>
     <[(i * numColors + j)%nat := entry i j]> attractionMatrix)).

(** The inner loop after [c] columns of row [i]. *)
Lemma row_loop (numColors i c : nat) (m : list F) :
  length (rowLoop numColors i c m) = length m /\
  (forall k, k < i * numColors \/ i * numColors + c <= k ->
     rowLoop numColors i c m !! k = m !! k) /\
  (forall j, j < c -> i * numColors + j < length m ->
     rowLoop numColors i c m !! (i * numColors + j) = Some (entry i j)).
Proof.
  induction c as [| c (IHlen & IHout & IHin)].
  - split; [reflexivity | split]; [intros k _; reflexivity | intros j Hj; lia].
  - rewrite for_loop_S; split; [| split].
    + now rewrite length_insert.
    + intros k Hk; rewrite list_lookup_insert_ne by lia; apply IHout; lia.
    + intros j Hj Hlen.
      destruct (Nat.eq_dec j c) as [-> | Hne].
      * apply list_lookup_insert_eq; now rewrite IHlen.
      * rewrite list_lookup_insert_ne by lia; apply IHin; [lia | assumption].
Qed.

(** The outer loop after [r] rows. *)
Lemma rows_loop (numColors r : nat) (m : list F) :
  let built := for_loop r (fun i m => rowLoop numColors i numColors m) m in
  length built = length m /\
  (forall i j, i < r -> j < numColors -> i * numColors + j < length m ->
     built !! (i * numColors + j) = Some (entry i j)).
Proof.
  induction r as [| r (IHlen & IHin)]; cbn zeta.
  - split; [reflexivity | intros i j Hi; lia].
  - rewrite for_loop_S.
    destruct (row_loop numColors r numColors
                (for_loop r (fun i m => rowLoop numColors i numColors m) m))
      as (Hlen & Hout & Hin).
    split; [now rewrite Hlen |].
    intros i j Hi Hj Hlt.
    destruct (Nat.eq_dec i r) as [-> | Hne].
    + apply Hin; [assumption | now rewrite IHlen].
    + rewrite Hout by nia. apply IHin; [lia | assumption | assumption].
Qed.

Lemma buildAttractionMatrix_entry (numColors i j : nat) (m : list F) :
  length m = numColors * numColors -> i < numColors -> j < numColors ->
  buildAttractionMatrix numColors m !! (i * numColors + j) = Some (entry i j).
Proof.
  intros Hlen Hi Hj.
  apply (rows_loop numColors numColors m); [assumption | assumption | nia].
Qed.

(** C7: the loop of [main] sets entry (i, j) of the matrix to 1.0 when
    i = j and to -1.0 otherwise, for all colours i, j below [numColors], and
    no frame changes the matrix on the device. *)
Theorem attraction_matrix_built_and_kept
    (numColors i j : nat) (m : list F)
    (n blocksPerGrid threadsPerBlock numParticles : nat) (deltaTime : F)
    (colors : Z) (beta frictionFactor : F) (particles : list (Particle F)) :
  length m = numColors * numColors -> i < numColors -> j < numColors ->
  buildAttractionMatrix numColors m !! (i * numColors + j)
    = Some (if (i =? j)%nat then of_int 1 else of_int (-1)) /\
  d_attractionMatrix
    (frames n blocksPerGrid threadsPerBlock numParticles deltaTime colors
       beta frictionFactor
       (mkDevice particles (buildAttractionMatrix numColors m)))
    = buildAttractionMatrix numColors m.
Proof.
  intros Hlen Hi Hj; split.
  - now apply buildAttractionMatrix_entry.
  - apply frames_matrix.
Qed.
End Matrix.

(** ** Initialisation (any arithmetic) *)

Section Init.
Context {F : Type} `{FloatOps F}.
Variable curandState : Type.
Variable curand_init : Z -> nat -> Z -> curandState.
Variable curand_uniform : curandState -> F * curandState.
Variable numParticles : nat.
Variables numColors seed : Z.

Abbreviation initKernel :=
  (initParticles curandState curand_init curand_uniform numParticles numColors seed).
Abbreviation initial :=
  (initialParticle curandState curand_init curand_uniform numColors seed).

Lemma initParticles_length (idx : nat) (particles : list (Particle F)) :
  length (initKernel idx particles) = length particles.
Proof.
  unfold initParticles; destruct (idx <? numParticles)%nat;
    [apply length_insert | reflexivity].
Qed.

Lemma initParticles_other (idx j : nat) (particles : list (Particle F)) :
  j <> idx -> initKernel idx particles !! j = particles !! j.
Proof.
  intros Hne; unfold initParticles; destruct (idx <? numParticles)%nat;
    [now apply list_lookup_insert_ne | reflexivity].
Qed.

Lemma initParticles_self (idx : nat) (particles : list (Particle F)) :
  idx < numParticles -> idx < length particles ->
  initKernel idx particles !! idx = Some (initial idx).
Proof.
  intros Hlt Hlen; unfold initParticles.
  apply Nat.ltb_lt in Hlt; rewrite Hlt.
  now apply list_lookup_insert_eq.
Qed.

Lemma launch_init_length (order : list nat) (particles : list (Particle F)) :
  length (launch initKernel order particles) = length particles.
Proof.
  revert particles; induction order as [| idx order IH]; intros particles;
    [reflexivity |].
  cbn; fold (launch initKernel order (initKernel idx particles)).
  now rewrite IH, initParticles_length.
Qed.

Lemma launch_init_untouched (order : list nat) (j : nat)
    (particles : list (Particle F)) :
  j ∉ order -> launch initKernel order particles !! j = particles !! j.
Proof.
  revert particles; induction order as [| idx order IH]; intros particles Hj;
    [reflexivity |].
  cbn; fold (launch initKernel order (initKernel idx particles)).
  apply not_elem_of_cons in Hj as [Hne Hj].
  now rewrite IH, initParticles_other.
Qed.

Lemma launch_init_lookup (order : list nat) (j : nat)
    (particles : list (Particle F)) :
  j ∈ order -> j < numParticles -> j < length particles ->
  launch initKernel order particles !! j = Some (initial j).
Proof.
  revert particles; induction order as [| idx order IH]; intros particles Hj Hlt Hlen.
  - now apply elem_of_nil in Hj.
  - cbn; fold (launch initKernel order (initKernel idx particles)).
    destruct (decide (j ∈ order)) as [Hin | Hout].
    + apply IH; [assumption | assumption | now rewrite initParticles_length].
    + apply elem_of_cons in Hj as [-> | Hin]; [| contradiction].
      rewrite launch_init_untouched by assumption.
      now apply initParticles_self.
Qed.

Lemma launch_init_grid (blocksPerGrid threadsPerBlock : nat)
    (particles : list (Particle F)) :
  numParticles <= blocksPerGrid * threadsPerBlock ->
  numParticles <= length particles ->
  take numParticles
    (launch initKernel (grid blocksPerGrid threadsPerBlock) particles)
  = initial <$> seq 0 numParticles.
Proof.
  intros Hgrid Hlen; apply list_eq; intros i.
  rewrite list_lookup_fmap.
  destruct (Nat.lt_ge_cases i numParticles) as [Hi | Hi].
  - rewrite lookup_take_lt, lookup_seq_lt by assumption; cbn.
    apply launch_init_lookup; [apply elem_of_seq | |]; lia.
  - rewrite lookup_take_ge, lookup_seq_ge by assumption; reflexivity.
Qed.

Lemma initial_velocity (idx : nat) :
  velocity (initial idx) = make_float3 (of_int 0) (of_int 0) (of_int 0).
Proof.
  unfold initialParticle.
  destruct (curand_uniform _) as [u1 s1], (curand_uniform s1) as [u2 s2],
    (curand_uniform s2) as [u3 s3]; reflexivity.
Qed.

Lemma initial_color (idx : nat) :
  color (initial idx) = Z.rem (Z.of_nat idx) numColors.
Proof.
  unfold initialParticle.
  destruct (curand_uniform _) as [u1 s1], (curand_uniform s1) as [u2 s2],
    (curand_uniform s2) as [u3 s3]; reflexivity.
Qed.

Lemma initial_position (idx : nat) :
  let d1 := curand_uniform (curand_init seed idx 0) in
  let d2 := curand_uniform (snd d1) in
  let d3 := curand_uniform (snd d2) in
  position (initial idx)
  = make_float3 (fst d1 * of_int 2 - of_int 1)%fl
                (fst d2 * of_int 2 - of_int 1)%fl
                (fst d3 * of_int 2 - of_int 1)%fl.
Proof.
  unfold initialParticle; cbn zeta.
  destruct (curand_uniform _) as [u1 s1]; cbn [fst snd].
  destruct (curand_uniform s1) as [u2 s2]; cbn [fst snd].
  destruct (curand_uniform s2) as [u3 s3]; reflexivity.
Qed.
End Init.

(** Indices 0 .. N-1 taken modulo C: how often the colour [c] occurs. *)
Lemma round_robin_count (C c : Z) (N : nat) :
  (0 < C)%Z -> (0 <= c < C)%Z ->
  Z.of_nat (count_occ Z.eq_dec ((fun i => Z.rem (Z.of_nat i) C) <$> seq 0 N) c)
  = (Z.of_nat N / C + (if c <? Z.of_nat N mod C then 1 else 0))%Z.
Proof.
  intros HC Hc; induction N as [| N IH].
  - cbn [seq fmap list_fmap count_occ]; rewrite Z.div_0_l, Z.mod_0_l by lia.
    destruct (Z.ltb_spec c 0); lia.
  - rewrite seq_S, fmap_app, count_occ_app, Nat2Z.inj_add, IH.
    cbn [Nat.add fmap list_fmap count_occ].
    rewrite Z.rem_mod_nonneg by lia.
    pose proof (Z.div_mod (Z.of_nat N) C ltac:(lia)) as Hdm.
    pose proof (Z.mod_pos_bound (Z.of_nat N) C HC) as Hr.
    set (q := (Z.of_nat N / C)%Z) in *; set (r := (Z.of_nat N mod C)%Z) in *.
    rewrite Nat2Z.inj_succ.
    destruct (Z.eq_dec (r + 1)%Z C) as [Hwrap | Hnowrap].
    + assert (Hq : (Z.succ (Z.of_nat N) / C = q + 1)%Z)
        by (symmetry; apply (Z.div_unique_pos _ _ _ 0); lia).
      assert (Hm : (Z.succ (Z.of_nat N) mod C = 0)%Z)
        by (symmetry; apply (Z.mod_unique_pos _ _ (q + 1)); lia).
      rewrite Hq, Hm.
      destruct (Z.eq_dec r c), (Z.ltb_spec c r), (Z.ltb_spec c 0); cbn; lia.
    + assert (Hq : (Z.succ (Z.of_nat N) / C = q)%Z)
        by (symmetry; apply (Z.div_unique_pos _ _ _ (r + 1)); lia).
      assert (Hm : (Z.succ (Z.of_nat N) mod C = r + 1)%Z)
        by (symmetry; apply (Z.mod_unique_pos _ _ q); lia).
      rewrite Hq, Hm.
      destruct (Z.eq_dec r c), (Z.ltb_spec c r), (Z.ltb_spec c (r + 1)); cbn; lia.
Qed.

(** ** Kernels whose threads write their own slot only (any element type) *)

Section OwnSlot.
Context {A : Type}.
Variable kernel : nat -> list A -> list A.
Variable guard : nat -> bool.
Variable value : nat -> A.
Hypothesis kernel_shape :
  forall idx mem, kernel idx mem = if guard idx then <[idx := value idx]> mem else mem.

Lemma own_slot_length (order : list nat) (mem : list A) :
  length (launch kernel order mem) = length mem.
Proof.
  revert mem; induction order as [| idx order IH]; intros mem; [reflexivity |].
  cbn; fold (launch kernel order (kernel idx mem)).
  rewrite IH, kernel_shape; destruct (guard idx); [apply length_insert | reflexivity].
Qed.

Lemma own_slot_step (idx : nat) (mem : list A) (j : nat) :
  kernel idx mem !! j
  = if (j =? idx)%nat && guard j && (j <? length mem)%nat
    then Some (value j) else mem !! j.
Proof.
  rewrite kernel_shape.
  destruct (Nat.eqb_spec j idx) as [-> | Hne]; cbn [andb].
  - destruct (guard idx); cbn [andb]; [| reflexivity].
    destruct (Nat.ltb_spec idx (length mem)) as [Hlt | Hge].
    + now apply list_lookup_insert_eq.
    + rewrite (lookup_ge_None_2 mem idx Hge).
      apply lookup_ge_None_2; now rewrite length_insert.
  - destruct (guard idx); [| reflexivity].
    apply list_lookup_insert_ne; congruence.
Qed.

Lemma elem_of_cons_bool (j idx : nat) (order : list nat) :
  bool_decide (j ∈ idx :: order) = (j =? idx)%nat || bool_decide (j ∈ order).
Proof.
  destruct (Nat.eqb_spec j idx) as [-> | Hne]; cbn [orb].
  - apply bool_decide_eq_true_2, list_elem_of_here.
  - apply bool_decide_ext; rewrite elem_of_cons; intuition.
Qed.

Lemma own_slot_lookup (order : list nat) (mem : list A) (j : nat) :
  launch kernel order mem !! j
  = if bool_decide (j ∈ order) && guard j && (j <? length mem)%nat
    then Some (value j) else mem !! j.
Proof.
  revert mem; induction order as [| idx order IH]; intros mem.
  - cbn; rewrite bool_decide_eq_false_2 by apply not_elem_of_nil; reflexivity.
  - change (launch kernel (idx :: order) mem)
      with (launch kernel order (kernel idx mem)).
    rewrite IH, own_slot_step, elem_of_cons_bool.
    replace (length (kernel idx mem)) with (length mem)
      by (rewrite kernel_shape; destruct (guard idx);
          [now rewrite length_insert | reflexivity]).
    now destruct (bool_decide (j ∈ order)), (j =? idx)%nat, (guard j),
      (j <? length mem)%nat.
Qed.

Lemma own_slot_order (order1 order2 : list nat) (mem : list A) :
  (forall j, j ∈ order1 <-> j ∈ order2) ->
  launch kernel order1 mem = launch kernel order2 mem.
Proof.
  intros Hsame; apply list_eq; intros j; rewrite !own_slot_lookup.
  now rewrite (bool_decide_ext _ _ (Hsame j)).
Qed.

Lemma own_slot_twice (order : list nat) (mem : list A) :
  launch kernel order (launch kernel order mem) = launch kernel order mem.
Proof.
  apply list_eq; intros j; rewrite !own_slot_lookup, own_slot_length.
  now destruct (bool_decide (j ∈ order) && guard j && (j <? length mem)%nat).
Qed.
End OwnSlot.

(** ** The two initialisation kernels *)

Section InitOrder.
Context {F : Type} `{FloatOps F}.
Variable curandState : Type.
Variable curand_init : Z -> nat -> Z -> curandState.
Variable curand_uniform : curandState -> F * curandState.
Variable numParticles : nat.
Variables numColors seed : Z.

Abbreviation initP :=
  (initParticles curandState curand_init curand_uniform numParticles numColors seed).
Abbreviation initC :=
  (initColors curandState curand_init curand_uniform numColors seed).

Lemma initParticles_shape (idx : nat) (mem : list (Particle F)) :
  initP idx mem
  = if (idx <? numParticles)%nat
    then <[idx := initialParticle curandState curand_init curand_uniform
                    numColors seed idx]> mem
    else mem.
Proof. reflexivity. Qed.

Lemma initColors_shape (idx : nat) (mem : list (float4 F)) :
  initC idx mem
  = if (Z.of_nat idx <? numColors)%Z
    then <[idx := initialColor curandState curand_init curand_uniform seed idx]> mem
    else mem.
Proof. reflexivity. Qed.

(** X1: unlike [updateParticles], the kernel [initParticles] gives the same
    array whatever the order of its threads (and however often an index is
    run): two launches over the same set of indices agree, in particular the
    grid in index order and in reverse order, and a second launch changes
    nothing. *)
Theorem initParticles_order_free (order1 order2 : list nat)
    (blocksPerGrid threadsPerBlock : nat) (particles : list (Particle F)) :
  (forall j, j ∈ order1 <-> j ∈ order2) ->
  launch initP order1 particles = launch initP order2 particles /\
  launch initP (rev (grid blocksPerGrid threadsPerBlock)) particles
  = launch initP (grid blocksPerGrid threadsPerBlock) particles /\
  launch initP order1 (launch initP order1 particles) = launch initP order1 particles.
Proof.
  intros Hsame; split; [| split].
  - exact (own_slot_order initP _ _ initParticles_shape order1 order2 particles Hsame).
  - apply (own_slot_order initP _ _ initParticles_shape).
    intros j; rewrite !list_elem_of_In; symmetry; apply in_rev.
  - exact (own_slot_twice initP _ _ initParticles_shape order1 particles).
Qed.

(** X2: [initColors] and [initParticles] set their generators up from the
    same seed and thread index, so particle [idx] and palette colour [idx]
    are made from the same three draws: each position coordinate of the
    particle is twice the matching colour channel minus one. *)
Theorem position_follows_palette (blocksPerGrid threadsPerBlock : nat)
    (particles : list (Particle F)) (colors : list (float4 F)) (idx : nat) :
  idx < numParticles -> (Z.of_nat idx < numColors)%Z ->
  numParticles <= blocksPerGrid * threadsPerBlock ->
  idx < length particles -> idx < length colors ->
  exists p c,
    launch initP (grid blocksPerGrid threadsPerBlock) particles !! idx = Some p /\
    launch initC (grid 1 (Z.to_nat numColors)) colors !! idx = Some c /\
    position p = make_float3 (x4 c * of_int 2 - of_int 1)%fl
                             (y4 c * of_int 2 - of_int 1)%fl
                             (z4 c * of_int 2 - of_int 1)%fl /\
    w4 c = of_int 1.
Proof.
  intros Hidx Hcol Hgrid HlenP HlenC.
  exists (initialParticle curandState curand_init curand_uniform numColors seed idx),
         (initialColor curandState curand_init curand_uniform seed idx).
  split; [| split].
  - rewrite (own_slot_lookup initP _ _ initParticles_shape).
    rewrite bool_decide_eq_true_2 by (apply elem_of_seq; lia).
    now rewrite (proj2 (Nat.ltb_lt _ _) Hidx), (proj2 (Nat.ltb_lt _ _) HlenP).
  - rewrite (own_slot_lookup initC _ _ initColors_shape).
    rewrite bool_decide_eq_true_2 by (apply elem_of_seq; lia).
    now rewrite (proj2 (Z.ltb_lt _ _) Hcol), (proj2 (Nat.ltb_lt _ _) HlenC).
  - unfold initialParticle, initialColor.
    destruct (curand_uniform _) as [u1 s1], (curand_uniform s1) as [u2 s2],
      (curand_uniform s2) as [u3 s3]; split; reflexivity.
Qed.

Lemma initColors_lookup (colors : list (float4 F)) (j : nat) :
  launch initC (grid 1 (Z.to_nat numColors)) colors !! j
  = if (Z.of_nat j <? numColors)%Z && (j <? length colors)%nat
    then Some (initialColor curandState curand_init curand_uniform seed j)
    else colors !! j.
Proof.
  rewrite (own_slot_lookup initC _ _ initColors_shape).
  destruct (Z.ltb_spec (Z.of_nat j) numColors) as [Hlt | Hge].
  - rewrite bool_decide_eq_true_2 by (apply elem_of_seq; lia); reflexivity.
  - now rewrite andb_false_r.
Qed.
End InitOrder.

(** ** The launch configuration and its idle threads *)

Lemma blocks_cover (numParticles threadsPerBlock : nat) :
  0 < threadsPerBlock ->
  numParticles <= blocksPerGridFor numParticles threadsPerBlock * threadsPerBlock.
Proof.
  intros HT; unfold blocksPerGridFor.
  pose proof (Nat.div_mod_eq (numParticles + threadsPerBlock - 1) threadsPerBlock) as Hdm.
  pose proof (Nat.mod_upper_bound (numParticles + threadsPerBlock - 1)
                threadsPerBlock ltac:(lia)) as Hr.
  nia.
Qed.

(** X3: the block count of [main], (numParticles + threadsPerBlock - 1) /
    threadsPerBlock, is the least that gives every particle a thread: the
    grid has at least numParticles threads, and one block fewer has not. *)
Theorem blocksPerGridFor_least (numParticles threadsPerBlock : nat) :
  0 < threadsPerBlock -> 0 < numParticles ->
  numParticles <= blocksPerGridFor numParticles threadsPerBlock * threadsPerBlock /\
  (blocksPerGridFor numParticles threadsPerBlock - 1) * threadsPerBlock < numParticles /\
  Reference.blocksPerGrid
  = blocksPerGridFor Reference.numParticles Reference.threadsPerBlock.
Proof.
  intros HT HN; split; [now apply blocks_cover | split; [| reflexivity]].
  unfold blocksPerGridFor.
  pose proof (Nat.div_mod_eq (numParticles + threadsPerBlock - 1) threadsPerBlock) as Hdm.
  pose proof (Nat.mod_upper_bound (numParticles + threadsPerBlock - 1)
                threadsPerBlock ltac:(lia)) as Hr.
  nia.
Qed.

Lemma blocksPerGridFor_least_witness :
  Reference.numParticles
  <= blocksPerGridFor Reference.numParticles Reference.threadsPerBlock
     * Reference.threadsPerBlock /\
  (blocksPerGridFor 1000 256 - 1) * 256 < 1000.
Proof.
  split.
  - apply (blocksPerGridFor_least Reference.numParticles Reference.threadsPerBlock);
      apply Nat.ltb_lt; vm_compute; reflexivity.
  - apply (blocksPerGridFor_least 1000 256); lia.
Defined.

Lemma blocks_tight (numParticles threadsPerBlock : nat) :
  0 < threadsPerBlock ->
  blocksPerGridFor numParticles threadsPerBlock * threadsPerBlock
  < numParticles + threadsPerBlock.
Proof.
  intros HT; unfold blocksPerGridFor.
  pose proof (Nat.div_mod_eq (numParticles + threadsPerBlock - 1) threadsPerBlock) as Hdm.
  nia.
Qed.

Lemma threadIndex_small (blockIdx blockDim threadIdx : nat) :
  (Z.of_nat (blockIdx * blockDim + threadIdx) < 2 ^ 31)%Z ->
  threadIndex (Z.of_nat blockIdx) (Z.of_nat blockDim) (Z.of_nat threadIdx)
  = Z.of_nat (blockIdx * blockDim + threadIdx).
Proof.
  intros Hsmall; unfold threadIndex.
  assert (H31 : (2 ^ 31 = 2147483648)%Z) by reflexivity.
  assert (H32 : (2 ^ 32 = 4294967296)%Z) by reflexivity.
  rewrite H31, H32 in *.
  replace (Z.of_nat blockIdx * Z.of_nat blockDim + Z.of_nat threadIdx)%Z
    with (Z.of_nat (blockIdx * blockDim + threadIdx)) by lia.
  rewrite Z.mod_small by lia.
  destruct (Z.ltb_spec (Z.of_nat (blockIdx * blockDim + threadIdx)) 2147483648);
    [reflexivity | lia].
Qed.

Lemma map_seq_offset {A : Type} (g : nat -> A) (k len : nat) :
  forall start, map (fun t => g (k + t)) (seq start len) = map g (seq (k + start) len).
Proof.
  induction len as [| len IH]; intros start; [reflexivity |].
  cbn [seq map]; now rewrite IH, Nat.add_succ_r.
Qed.

Lemma grid_indices (blocksPerGrid threadsPerBlock : nat) :
  (Z.of_nat (blocksPerGrid * threadsPerBlock) < 2 ^ 31)%Z ->
  gridIndices blocksPerGrid threadsPerBlock
  = map Z.of_nat (grid blocksPerGrid threadsPerBlock).
Proof.
  unfold gridIndices, grid; induction blocksPerGrid as [| b IH]; intros Hsmall;
    [reflexivity |].
  rewrite seq_S, flat_map_app, IH by lia; cbn [flat_map Nat.add].
  rewrite app_nil_r.
  replace (S b * threadsPerBlock) with (b * threadsPerBlock + threadsPerBlock) by lia.
  rewrite seq_app, map_app; f_equal; cbn [Nat.add].
  transitivity
    (map (fun t => Z.of_nat (b * threadsPerBlock + t)) (seq 0 threadsPerBlock)).
  - apply map_ext_in; intros t Ht; apply in_seq in Ht.
    apply threadIndex_small; lia.
  - now rewrite (map_seq_offset Z.of_nat), Nat.add_0_r.
Qed.

Section Idle.
Context {F : Type} `{FloatOps F}.
Variable attractionMatrix : list F.
Variable numParticles : nat.
Variable deltaTime : F.
Variable numColors : Z.
Variables beta frictionFactor : F.

Abbreviation kernelU :=
  (updateParticles attractionMatrix numParticles deltaTime numColors beta
     frictionFactor).

Lemma launch_idle (order : list nat) (particles : list (Particle F)) :
  Forall (fun idx => numParticles <= idx) order ->
  launch kernelU order particles = particles.
Proof.
  induction 1 as [| idx order Hidx _ IH]; [reflexivity |].
  cbn; fold (launch kernelU order (kernelU idx particles)).
  unfold updateParticles at 2.
  destruct (Nat.ltb_spec idx numParticles); [lia | exact IH].
Qed.

Lemma grid_trimmed (blocksPerGrid threadsPerBlock : nat)
    (particles : list (Particle F)) :
  numParticles <= blocksPerGrid * threadsPerBlock ->
  launch kernelU (grid blocksPerGrid threadsPerBlock) particles
  = launch kernelU (seq 0 numParticles) particles.
Proof.
  intros Hgrid; unfold grid.
  replace (blocksPerGrid * threadsPerBlock)
    with (numParticles + (blocksPerGrid * threadsPerBlock - numParticles)) by lia.
  rewrite seq_app, launch_app; apply launch_idle.
  apply Forall_forall; intros idx Hin; apply elem_of_seq in Hin; lia.
Qed.

Lemma grid_trimmed_for (threadsPerBlock : nat) (particles : list (Particle F)) :
  0 < threadsPerBlock ->
  launch kernelU
    (grid (blocksPerGridFor numParticles threadsPerBlock) threadsPerBlock) particles
  = launch kernelU (seq 0 numParticles) particles.
Proof.
  intros HT; apply grid_trimmed; now apply blocks_cover.
Qed.

(** X4: in a grid of fewer than 2^31 threads the values of [idx] are
    0, 1, 2, ... in thread order, and the threads whose index is not below
    [numParticles] do nothing: a launch of [updateParticles] over such a grid
    with a thread per particle is the launch of threads 0 .. numParticles-1.
    The grid of [main] is such a grid whenever numParticles + threadsPerBlock
    is at most 2^31. *)
Theorem surplus_threads_idle (blocksPerGrid threadsPerBlock : nat)
    (particles : list (Particle F)) :
  numParticles <= blocksPerGrid * threadsPerBlock -> 0 < threadsPerBlock ->
  (Z.of_nat (blocksPerGrid * threadsPerBlock) < 2 ^ 31)%Z ->
  gridIndices blocksPerGrid threadsPerBlock
  = map Z.of_nat (grid blocksPerGrid threadsPerBlock) /\
  launch kernelU (grid blocksPerGrid threadsPerBlock) particles
  = launch kernelU (seq 0 numParticles) particles /\
  ((Z.of_nat (numParticles + threadsPerBlock) <= 2 ^ 31)%Z ->
   gridIndices (blocksPerGridFor numParticles threadsPerBlock) threadsPerBlock
   = map Z.of_nat
       (grid (blocksPerGridFor numParticles threadsPerBlock) threadsPerBlock) /\
   launch kernelU
     (grid (blocksPerGridFor numParticles threadsPerBlock) threadsPerBlock) particles
   = launch kernelU (seq 0 numParticles) particles).
Proof.
  intros Hgrid HT Hsmall; split; [now apply grid_indices |].
  split; [now apply grid_trimmed |].
  intros Hfit; split; [| now apply grid_trimmed_for].
  apply grid_indices.
  pose proof (blocks_tight numParticles threadsPerBlock HT); lia.
Qed.

Lemma kernel_color (idx : nat) (particles : list (Particle F)) :
  color <$> kernelU idx particles = color <$> particles.
Proof.
  unfold updateParticles.
  destruct (idx <? numParticles)%nat; [| reflexivity].
  destruct (particles !! idx) as [self |] eqn:Hself; [| reflexivity].
  rewrite list_fmap_insert.
  apply list_insert_id; rewrite list_lookup_fmap, Hself; reflexivity.
Qed.

Lemma launch_color (order : list nat) (particles : list (Particle F)) :
  color <$> launch kernelU order particles = color <$> particles.
Proof.
  revert particles; induction order as [| idx order IH]; intros particles;
    [reflexivity |].
  cbn; fold (launch kernelU order (kernelU idx particles)).
  now rewrite IH, kernel_color.
Qed.
End Idle.

Lemma frames_color {F : Type} `{FloatOps F}
    (n blocksPerGrid threadsPerBlock numParticles : nat) (deltaTime : F)
    (numColors : Z) (beta frictionFactor : F) (dev : Device) :
  color <$> d_particles (frames n blocksPerGrid threadsPerBlock numParticles
                           deltaTime numColors beta frictionFactor dev)
  = color <$> d_particles dev.
Proof.
  revert dev; induction n as [| n IH]; intros dev; [reflexivity |].
  cbn [frames]; rewrite IH; cbn [frame d_particles]; apply launch_color.
Qed.

(** X5: no frame changes a particle's colour or the number of particles:
    after any number of frames, with any grid and any parameters, the colours
    of the array are those it started with, slot by slot. *)
Theorem colors_never_change {F : Type} `{FloatOps F}
    (n blocksPerGrid threadsPerBlock numParticles : nat) (deltaTime : F)
    (numColors : Z) (beta frictionFactor : F) (dev : Device) :
  color <$> d_particles (frames n blocksPerGrid threadsPerBlock numParticles
                           deltaTime numColors beta frictionFactor dev)
  = color <$> d_particles dev /\
  length (d_particles (frames n blocksPerGrid threadsPerBlock numParticles
                         deltaTime numColors beta frictionFactor dev))
  = length (d_particles dev).
Proof. split; [apply frames_color | apply frames_length]. Qed.

(** ** Reading the matrix of [main] *)

Section Lookup.
Context {F : Type} `{FloatOps F}.

Lemma readMatrix_built (numColors color_i color_j : Z) (m : list F) :
  length m = Z.to_nat numColors * Z.to_nat numColors ->
  (0 <= color_i < numColors)%Z -> (0 <= color_j < numColors)%Z ->
  readMatrix (buildAttractionMatrix (Z.to_nat numColors) m)
    (color_i * numColors + color_j)
  = if (color_i =? color_j)%Z then of_int 1 else of_int (-1).
Proof.
  intros Hlen Hi Hj; unfold readMatrix.
  destruct (Z.ltb_spec (color_i * numColors + color_j) 0) as [Hneg | _]; [nia |].
  replace (Z.to_nat (color_i * numColors + color_j))
    with (Z.to_nat color_i * Z.to_nat numColors + Z.to_nat color_j) by nia.
  rewrite buildAttractionMatrix_entry by (assumption || lia); cbn [default from_option].
  destruct (Z.eqb_spec color_i color_j) as [-> | Hne].
  - now rewrite Nat.eqb_refl.
  - destruct (Nat.eqb_spec (Z.to_nat color_i) (Z.to_nat color_j)); [lia | reflexivity].
Qed.

(** X6: for colours in [0, numColors) the kernel's lookup
    attractionMatrix[color_i * numColors + color_j] in the matrix built by
    [main] yields 1.0 for equal colours and -1.0 for different ones, and the
    same value with the two colours exchanged. *)
Theorem lookup_in_built_matrix (numColors color_i color_j : Z) (m : list F) :
  length m = Z.to_nat numColors * Z.to_nat numColors ->
  (0 <= color_i < numColors)%Z -> (0 <= color_j < numColors)%Z ->
  readMatrix (buildAttractionMatrix (Z.to_nat numColors) m)
    (color_i * numColors + color_j)
  = (if (color_i =? color_j)%Z then of_int 1 else of_int (-1)) /\
  readMatrix (buildAttractionMatrix (Z.to_nat numColors) m)
    (color_j * numColors + color_i)
  = readMatrix (buildAttractionMatrix (Z.to_nat numColors) m)
      (color_i * numColors + color_j).
Proof.
  intros Hlen Hi Hj; split; [now apply readMatrix_built |].
  rewrite !readMatrix_built by assumption.
  now rewrite (Z.eqb_sym color_j color_i).
Qed.
End Lookup.

(** X7: from initialisation on, every colour in the array is in
    [0, numColors), so every index color_i * numColors + color_j the kernel
    forms lies inside the numColors * numColors matrix, in every frame. *)
Theorem matrix_index_in_bounds {F : Type} `{FloatOps F}
    (curandState : Type) (curand_init : Z -> nat -> Z -> curandState)
    (curand_uniform : curandState -> F * curandState)
    (n blocksPerGrid threadsPerBlock numParticles : nat) (deltaTime : F)
    (numColors seed : Z) (beta frictionFactor : F)
    (particles : list (Particle F)) (attractionMatrix : list F) :
  (0 < numColors)%Z ->
  numParticles <= blocksPerGrid * threadsPerBlock ->
  numParticles <= length particles ->
  let started :=
    take numParticles
      (launch (initParticles curandState curand_init curand_uniform
                 numParticles numColors seed)
              (grid blocksPerGrid threadsPerBlock) particles) in
  let now :=
    d_particles (frames n blocksPerGrid threadsPerBlock numParticles deltaTime
                   numColors beta frictionFactor
                   (mkDevice started attractionMatrix)) in
  Forall (fun p =>
            (0 <= color p < numColors)%Z /\
            Forall (fun q =>
                      (0 <= color p * numColors + color q < numColors * numColors)%Z)
                   now)
         now.
Proof.
  intros HC Hgrid Hlen started now.
  assert (Hall : forall r, r ∈ now -> (0 <= color r < numColors)%Z).
  { intros r Hr.
    apply (list_elem_of_fmap_2 color) in Hr.
    subst now; rewrite frames_color in Hr; cbn [d_particles] in Hr.
    subst started; rewrite launch_init_grid in Hr by assumption.
    rewrite <- list_fmap_compose in Hr.
    apply list_elem_of_fmap in Hr as (i & -> & _); cbn.
    rewrite initial_color, Z.rem_mod_nonneg by lia.
    apply Z.mod_pos_bound; lia. }
  apply Forall_forall; intros p Hp; split; [now apply Hall |].
  apply Forall_forall; intros q Hq.
  pose proof (Hall p Hp); pose proof (Hall q Hq); nia.
Qed.

Import Sim Real.
Local Open Scope R_scope.

(** ** Reading the interface at [R] *)

Lemma Rltb_lt (a b : R) : Rltb a b = true <-> a < b.
Proof. unfold Rltb; destruct (Rlt_dec a b); split; intros; try easy. Qed.

Lemma Rltb_true (a b : R) : a < b -> Rltb a b = true.
Proof. apply Rltb_lt. Qed.

Lemma Rltb_false (a b : R) : b <= a -> Rltb a b = false.
Proof.
  intros Hle; unfold Rltb; destruct (Rlt_dec a b); [lra | reflexivity].
Qed.

Ltac real_ops :=
  cbn [of_int fadd fsub fmul fdiv sqrtf fltb R_ops] in *.

(** Decide the float tests of a goal whose operands [lra] can compare. *)
Ltac decide_tests :=
  repeat match goal with
  | |- context [Rltb ?a ?b] =>
      first [ rewrite (Rltb_true a b) by lra
            | rewrite (Rltb_false a b) by lra ]
  end.

(** ** The force law *)

Section ForceLaw.
Variables attraction beta : R.

Lemma calculateForce_repulsive (distance : R) :
  distance < beta ->
  calculateForce distance attraction beta = distance / beta - 1.
Proof.
  intros Hlt; unfold calculateForce; real_ops; now decide_tests.
Qed.

Lemma calculateForce_mid (distance : R) :
  beta <= distance < 1 ->
  calculateForce distance attraction beta
  = attraction * (1 - (2 * distance - 1 - beta) / (1 - beta)).
Proof.
  intros [Hge Hlt]; unfold calculateForce; real_ops; now decide_tests.
Qed.

Lemma calculateForce_far (distance : R) :
  1 <= distance -> 0 < beta < 1 ->
  calculateForce distance attraction beta = 0.
Proof.
  intros Hge Hb; unfold calculateForce; real_ops; now decide_tests.
Qed.

End ForceLaw.

(** C2: for distance >= 0, attraction in [-1,1] and beta in (0,1) the force
    law is the piecewise function of the specification: distance/beta - 1
    below beta, attraction * (1 - (2*distance - 1 - beta)/(1 - beta)) from
    beta (included) up to 1.0 (excluded), and 0 from 1.0 on. *)
Theorem calculateForce_piecewise (distance attraction beta : R) :
  0 <= distance -> -1 <= attraction <= 1 -> 0 < beta < 1 ->
  (distance < beta ->
     calculateForce distance attraction beta = distance / beta - 1) /\
  (beta <= distance < 1 ->
     calculateForce distance attraction beta
     = attraction * (1 - (2 * distance - 1 - beta) / (1 - beta))) /\
  (1 <= distance -> calculateForce distance attraction beta = 0).
Proof.
  intros Hd Ha Hb; repeat split.
  - apply calculateForce_repulsive.
  - apply calculateForce_mid.
  - intros Hge; now apply calculateForce_far.
Qed.

Lemma calculateForce_piecewise_witness :
  calculateForce (1 / 20) 1 (1 / 10) = 1 / 20 / (1 / 10) - 1 /\
  calculateForce (1 / 10) 1 (1 / 10)
  = 1 * (1 - (2 * (1 / 10) - 1 - 1 / 10) / (1 - 1 / 10)) /\
  calculateForce 1 1 (1 / 10) = 0.
Proof.
  split; [| split].
  - apply (calculateForce_piecewise (1 / 20) 1 (1 / 10)); lra.
  - apply (calculateForce_piecewise (1 / 10) 1 (1 / 10)); lra.
  - apply (calculateForce_piecewise 1 1 (1 / 10)); lra.
Defined.

(** The two branches as functions of the distance, in closed form. *)
Lemma repulsive_closed_form (distance beta : R) :
  0 < beta -> distance / beta - 1 = - ((beta - distance) / beta).
Proof. intros Hb; field; lra. Qed.

Lemma mid_closed_form (distance attraction beta : R) :
  beta < 1 ->
  attraction * (1 - (2 * distance - 1 - beta) / (1 - beta))
  = 2 * attraction * ((1 - distance) / (1 - beta)).
Proof. intros Hb; field; lra. Qed.

Lemma scaled_small (attraction t eps : R) :
  -1 <= attraction <= 1 -> 0 <= t -> 2 * t < eps ->
  Rabs (2 * attraction * t) < eps.
Proof.
  intros Ha Ht Hlt; apply Rabs_def1; nra.
Qed.

Lemma ratio_small (u den eps : R) :
  0 < den -> 0 <= u -> u < eps * den -> 0 <= u / den < eps.
Proof.
  intros Hden Hu Hlt; split.
  - apply Rle_mult_inv_pos; lra.
  - apply (Rmult_lt_reg_r den); [lra |].
    unfold Rdiv; rewrite Rmult_assoc, Rinv_l by lra; lra.
Qed.

(** C3 (amended): for attraction in [-1,1] and beta in (0,1), the force tends
    to 0 as the distance approaches beta from below, to 2 * attraction as it
    approaches beta from above, to 0 as it approaches 1 from below, and is 0
    for every distance >= 1. *)
Theorem calculateForce_limits (attraction beta : R) :
  -1 <= attraction <= 1 -> 0 < beta < 1 ->
  limit1_in (fun d => calculateForce d attraction beta)
            (fun d => 0 <= d < beta) 0 beta /\
  limit1_in (fun d => calculateForce d attraction beta)
            (fun d => beta < d < 1) (2 * attraction) beta /\
  limit1_in (fun d => calculateForce d attraction beta)
            (fun d => d < 1) 0 1 /\
  (forall d, 1 <= d -> calculateForce d attraction beta = 0).
Proof.
  intros Ha Hb; repeat split.
  - intros eps Heps; exists (eps * beta); split; [nra |].
    intros d [[Hd0 Hd] Hnear]; cbn in *; unfold Rdist in *.
    rewrite calculateForce_repulsive, repulsive_closed_form by lra.
    rewrite Rabs_left1 in Hnear by lra.
    destruct (ratio_small (beta - d) beta eps) as [Hlo Hhi]; try lra.
    apply Rabs_def1; lra.
  - intros eps Heps; exists (eps * (1 - beta) / 2); split; [nra |].
    intros d [[Hd0 Hd] Hnear]; cbn in *; unfold Rdist in *.
    rewrite calculateForce_mid, mid_closed_form by lra.
    rewrite Rabs_right in Hnear by lra.
    replace (2 * attraction * ((1 - d) / (1 - beta)) - 2 * attraction)
      with (- (2 * attraction * ((d - beta) / (1 - beta)))) by (field; lra).
    rewrite Rabs_Ropp.
    destruct (ratio_small (d - beta) (1 - beta) (eps / 2)) as [Hlo Hhi]; try lra.
    apply scaled_small; lra.
  - intros eps Heps; exists (Rmin (1 - beta) (eps * (1 - beta) / 2)); split.
    { apply Rmin_glb_lt; nra. }
    intros d [Hd Hnear]; cbn in *; unfold Rdist in *.
    rewrite Rabs_left in Hnear by lra.
    pose proof (Rmin_l (1 - beta) (eps * (1 - beta) / 2)) as H1.
    pose proof (Rmin_r (1 - beta) (eps * (1 - beta) / 2)) as H2.
    rewrite calculateForce_mid, mid_closed_form by lra.
    rewrite Rminus_0_r.
    destruct (ratio_small (1 - d) (1 - beta) (eps / 2)) as [Hlo Hhi]; try lra.
    apply scaled_small; lra.
  - intros d Hd; now apply calculateForce_far.
Qed.

Lemma calculateForce_limits_witness :
  limit1_in (fun d => calculateForce d 1 (1 / 10))
            (fun d => 1 / 10 < d < 1) (2 * 1) (1 / 10).
Proof.
  apply (calculateForce_limits 1 (1 / 10)); lra.
Defined.

(** C3 as stated fails: with attraction 1 and beta 1/2 the force does not
    tend to the attraction, 1, as the distance approaches beta from above (it
    tends to 2). *)
Lemma calculateForce_limit_not_attraction :
  (-1 <= 1 <= 1 /\ 0 < 1 / 2 < 1) /\
  ~ limit1_in (fun d => calculateForce d 1 (1 / 2))
              (fun d => 1 / 2 < d < 1) 1 (1 / 2).
Proof.
  split; [lra |]; intros Hlim.
  destruct (Hlim (1 / 2)) as (alp & Halp & Hnear); [lra |].
  cbn in *; unfold Rdist in *.
  specialize (Hnear (1 / 2 + Rmin (alp / 2) (1 / 8))).
  pose proof (Rmin_l (alp / 2) (1 / 8)) as Hl.
  pose proof (Rmin_r (alp / 2) (1 / 8)) as Hr.
  assert (Hpos : 0 < Rmin (alp / 2) (1 / 8)) by (apply Rmin_glb_lt; lra).
  rewrite calculateForce_mid in Hnear by lra.
  assert (Hd : Rabs (1 / 2 + Rmin (alp / 2) (1 / 8) - 1 / 2) < alp)
    by (apply Rabs_def1; lra).
  assert (Hdom : 1 / 2 < 1 / 2 + Rmin (alp / 2) (1 / 8) < 1) by lra.
  specialize (Hnear (conj Hdom Hd)).
  apply Rabs_def2 in Hnear.
  lra.
Qed.

(** ** The wrap step *)

Lemma wrapAxis_steps (c : R) :
  (let c1 := if Rltb 1 c then -1 else c in
   if Rltb c1 (-1) then 1 else c1) = wrapAxis c.
Proof.
  unfold wrapAxis, Rltb; cbn.
  destruct (Rlt_dec 1 c) as [Hhi | Hhi].
  - destruct (Rlt_dec (-1) (-1)); [lra | reflexivity].
  - now destruct (Rlt_dec c (-1)).
Qed.

Lemma wrap_position (self : Particle R) :
  position (wrap self)
  = make_float3 (wrapAxis (x (position self))) (wrapAxis (y (position self)))
                (wrapAxis (z (position self))).
Proof.
  unfold wrap; cbn [position]; real_ops.
  now rewrite <- !wrapAxis_steps.
Qed.

Lemma wrapAxis_above (c : R) : 1 < c -> wrapAxis c = -1.
Proof. intros Hc; unfold wrapAxis; destruct (Rlt_dec 1 c); [reflexivity | lra]. Qed.

Lemma wrapAxis_below (c : R) : c < -1 -> wrapAxis c = 1.
Proof.
  intros Hc; unfold wrapAxis.
  destruct (Rlt_dec 1 c); [lra |]; destruct (Rlt_dec c (-1)); [reflexivity | lra].
Qed.

Lemma wrapAxis_inside (c : R) : -1 <= c <= 1 -> wrapAxis c = c.
Proof.
  intros Hc; unfold wrapAxis.
  destruct (Rlt_dec 1 c); [lra |]; destruct (Rlt_dec c (-1)); [lra | reflexivity].
Qed.

Lemma wrapAxis_closed (c : R) : inClosed (wrapAxis c).
Proof.
  unfold inClosed, wrapAxis.
  destruct (Rlt_dec 1 c); [lra |]; destruct (Rlt_dec c (-1)); lra.
Qed.

Lemma wrap_closed (self : Particle R) : inClosed3 (position (wrap self)).
Proof.
  rewrite wrap_position; repeat split; cbn; apply wrapAxis_closed.
Qed.

(** C5: a coordinate 1.0 + delta before the wrap is exactly -1.0 after it
    (not -1.0 + delta), one below -1.0 is exactly +1.0, and each of the three
    axes is wrapped by that one rule on its own coordinate. *)
Theorem wrap_teleports (self : Particle R) (delta : R) :
  0 < delta ->
  let before := position self in
  let after := position (wrap self) in
  (x before = 1 + delta -> x after = -1 /\ x after <> -1 + delta) /\
  (y before = 1 + delta -> y after = -1 /\ y after <> -1 + delta) /\
  (z before = 1 + delta -> z after = -1 /\ z after <> -1 + delta) /\
  (x before = -1 - delta -> x after = 1) /\
  (y before = -1 - delta -> y after = 1) /\
  (z before = -1 - delta -> z after = 1) /\
  after = make_float3 (wrapAxis (x before)) (wrapAxis (y before))
                      (wrapAxis (z before)).
Proof.
  intros Hdelta before after; subst before after.
  rewrite wrap_position; cbn [x y z].
  repeat apply conj; try reflexivity; intros ->;
    first [ rewrite wrapAxis_above by lra; split; lra
          | rewrite wrapAxis_below by lra; reflexivity ].
Qed.

Lemma wrap_teleports_witness :
  position (wrap (mkParticle (make_float3 (1 + 1) (-1 - 1) 0) (make_float3 0 0 0) 0))
  = make_float3 (wrapAxis (1 + 1)) (wrapAxis (-1 - 1)) (wrapAxis 0).
Proof.
  apply (wrap_teleports
           (mkParticle (make_float3 (1 + 1) (-1 - 1) 0) (make_float3 0 0 0) 0) 1).
  lra.
Defined.

(** ** Positions after the frames *)

Lemma launch_closed (attractionMatrix : list R) (numParticles : nat)
    (deltaTime : R) (numColors : Z) (beta frictionFactor : R)
    (order : list nat) (particles : list (Particle R)) (idx : nat) (p : Particle R) :
  idx ∈ order -> (idx < numParticles)%nat ->
  launch (updateParticles attractionMatrix numParticles deltaTime numColors beta
            frictionFactor) order particles !! idx = Some p ->
  inClosed3 (position p).
Proof.
  intros Hin Hlt Hp.
  apply list_elem_of_split_r in Hin as (pre & post & -> & Hpost).
  rewrite (proj1 (proj2 (launch_in_place _ _ _ _ _ _ pre post idx particles
                           Hpost Hlt))) in Hp.
  destruct (launch _ pre particles !! idx) as [self |]; [| discriminate].
  injection Hp as <-.
  unfold newParticle, integrate; apply wrap_closed.
Qed.

Lemma frames_closed (n blocksPerGrid threadsPerBlock numParticles : nat)
    (deltaTime : R) (numColors : Z) (beta frictionFactor : R) (dev : Device) :
  (numParticles <= blocksPerGrid * threadsPerBlock)%nat ->
  Forall (fun p => inClosed3 (position p))
    (take numParticles
       (d_particles (frames (S n) blocksPerGrid threadsPerBlock numParticles
                       deltaTime numColors beta frictionFactor dev))).
Proof.
  intros Hgrid; rewrite frames_last.
  apply Forall_lookup; intros idx p Hp.
  apply lookup_take_Some in Hp as [Hp Hidx].
  eapply launch_closed; [| exact Hidx | exact Hp].
  apply elem_of_seq; lia.
Qed.

(** C4 (amended): after every frame each position coordinate of each of the
    [numParticles] particles lies in the closed interval [-1.0, 1.0]: none
    exceeds 1.0 and none is below -1.0; the bound 1.0 is reached, by every
    coordinate that was below -1.0 before the wrap. *)
Theorem positions_closed_every_frame
    (n blocksPerGrid threadsPerBlock numParticles : nat)
    (deltaTime : R) (numColors : Z) (beta frictionFactor : R) (dev : Device)
    (self : Particle R) :
  (numParticles <= blocksPerGrid * threadsPerBlock)%nat ->
  Forall (fun p => inClosed3 (position p))
    (take numParticles
       (d_particles (frames (S n) blocksPerGrid threadsPerBlock numParticles
                       deltaTime numColors beta frictionFactor dev))) /\
  (x (position self) < -1 -> x (position (wrap self)) = 1) /\
  (y (position self) < -1 -> y (position (wrap self)) = 1) /\
  (z (position self) < -1 -> z (position (wrap self)) = 1).
Proof.
  intros Hgrid; split; [now apply frames_closed |].
  rewrite wrap_position; cbn [x y z].
  repeat apply conj; intros Hbelow; now apply wrapAxis_below.
Qed.

Lemma positions_closed_every_frame_witness :
  Forall (fun p => inClosed3 (position p))
    (take 1 (d_particles (RealData.loneFrames 1))) /\
  (x (position (onAxis (-2) 0)) < -1 ->
   x (position (wrap (onAxis (-2) 0))) = 1).
Proof.
  destruct (positions_closed_every_frame 0 1 1 1 Reference.deltaTime 1
              Reference.beta Reference.frictionFactor RealData.lone
              (onAxis (-2) 0)) as (Hall & Hx & _).
  - cbn; lia.
  - exact (conj Hall Hx).
Defined.

(** C4 as stated fails: with the time step, beta and friction of the source,
    a particle at x = -0.9999 moving at -1 along x is at x = +1.0 after one
    frame, outside [-1.0, 1.0). *)
Lemma position_reaches_one :
  exists p, d_particles (RealData.loneFrames 1) !! 0%nat = Some p /\
            x (position p) = 1 /\ ~ inHalfOpen (x (position p)).
Proof.
  eexists; split; [reflexivity |].
  unfold newParticle, integrate; rewrite wrap_position; cbn [x].
  unfold forceLoop, move, RealData.lone, RealData.leaving, onAxis,
    Reference.deltaTime, Reference.frictionFactor;
    cbn [d_particles seq fold_left Nat.eqb position velocity x y z]; real_ops.
  rewrite wrapAxis_below by lra.
  split; [reflexivity | unfold inHalfOpen; lra].
Qed.

(** C10: after the wrap step of every frame each position coordinate of each
    particle lies in the closed interval [-1.0, 1.0], and the wrap leaves a
    coordinate that is exactly +1.0 or -1.0 as it is. *)
Theorem wrap_closed_boundary_fixed
    (n blocksPerGrid threadsPerBlock numParticles : nat)
    (deltaTime : R) (numColors : Z) (beta frictionFactor : R) (dev : Device)
    (self : Particle R) :
  (numParticles <= blocksPerGrid * threadsPerBlock)%nat ->
  Forall (fun p => inClosed3 (position p))
    (take numParticles
       (d_particles (frames (S n) blocksPerGrid threadsPerBlock numParticles
                       deltaTime numColors beta frictionFactor dev))) /\
  inClosed3 (position (wrap self)) /\
  (x (position self) = 1 -> x (position (wrap self)) = 1) /\
  (y (position self) = 1 -> y (position (wrap self)) = 1) /\
  (z (position self) = 1 -> z (position (wrap self)) = 1) /\
  (x (position self) = -1 -> x (position (wrap self)) = -1) /\
  (y (position self) = -1 -> y (position (wrap self)) = -1) /\
  (z (position self) = -1 -> z (position (wrap self)) = -1).
Proof.
  intros Hgrid; split; [now apply frames_closed |].
  split; [apply wrap_closed |].
  rewrite wrap_position; cbn [x y z].
  repeat apply conj; intros ->; apply wrapAxis_inside; lra.
Qed.

Lemma wrap_closed_boundary_fixed_witness :
  Forall (fun p => inClosed3 (position p))
    (take 1 (d_particles (RealData.loneFrames 1))) /\
  inClosed3 (position (wrap (onAxis 1 0))) /\
  (x (position (onAxis 1 0)) = 1 -> x (position (wrap (onAxis 1 0))) = 1).
Proof.
  destruct (wrap_closed_boundary_fixed 0 1 1 1 Reference.deltaTime 1
              Reference.beta Reference.frictionFactor RealData.lone
              (onAxis 1 0)) as (Hall & Hin & Hx & _).
  - cbn; lia.
  - exact (conj Hall (conj Hin Hx)).
Defined.

(** ** Order of the threads *)

Lemma sqrt_of_square (e v : R) : 0 <= v -> e = v * v -> sqrt e = v.
Proof. intros Hv ->; now apply sqrt_square. Qed.

Lemma readMatrix_single : readMatrix [1] (0 * 1 + 0) = 1.
Proof. reflexivity. Qed.

(** Run one thread of the one-colour system on two particles of the x axis
    that are [d] apart. *)
Ltac eval_thread d :=
  unfold newParticle, forceLoop, onAxis;
  cbn [seq fold_left Nat.eqb lookup list_lookup];
  unfold accumulate, length; cbn [position velocity color x y z]; real_ops;
  rewrite readMatrix_single;
  rewrite (sqrt_of_square _ d) by lra;
  decide_tests;
  unfold calculateForce, normalize, length; cbn [x y z]; real_ops;
  rewrite (sqrt_of_square _ d) by lra;
  decide_tests; cbn [x y z];
  unfold integrate, move, wrap; cbn [position velocity color x y z]; real_ops;
  decide_tests;
  f_equal; f_equal; lra.

Lemma thread0_first :
  newParticle [1] 2 (1 / 4) 1 (1 / 2) 1 0 RealData.pair0 (onAxis 0 0)
  = onAxis (1 / 8) (1 / 2).
Proof. unfold RealData.pair0; eval_thread (1 / 2). Qed.

Lemma thread1_second :
  newParticle [1] 2 (1 / 4) 1 (1 / 2) 1 1
    [onAxis (1 / 8) (1 / 2); onAxis (1 / 2) 0] (onAxis (1 / 2) 0)
  = onAxis (33 / 64) (1 / 16).
Proof. eval_thread (3 / 8). Qed.

Lemma thread1_first :
  newParticle [1] 2 (1 / 4) 1 (1 / 2) 1 1 RealData.pair0 (onAxis (1 / 2) 0)
  = onAxis (3 / 8) (- (1 / 2)).
Proof. unfold RealData.pair0; eval_thread (1 / 2). Qed.

Lemma thread0_second :
  newParticle [1] 2 (1 / 4) 1 (1 / 2) 1 0
    [onAxis 0 0; onAxis (3 / 8) (- (1 / 2))] (onAxis 0 0)
  = onAxis (- (1 / 64)) (- (1 / 16)).
Proof. eval_thread (3 / 8). Qed.

Lemma stepPair_forward :
  RealData.stepPair (grid 1 2)
  = [onAxis (1 / 8) (1 / 2); onAxis (33 / 64) (1 / 16)].
Proof.
  unfold RealData.stepPair, grid, launch;
    cbn [Nat.mul Nat.add seq fold_left].
  rewrite (updateParticles_at _ _ _ _ _ _ 0 RealData.pair0 (onAxis 0 0))
    by (reflexivity || lia).
  rewrite thread0_first.
  change (<[0%nat := onAxis (1 / 8) (1 / 2)]> RealData.pair0)
    with [onAxis (F := R) (1 / 8) (1 / 2); onAxis (1 / 2) 0].
  rewrite (updateParticles_at _ _ _ _ _ _ 1 _ (onAxis (1 / 2) 0))
    by (reflexivity || lia).
  now rewrite thread1_second.
Qed.

Lemma stepPair_reverse :
  RealData.stepPair (rev (grid 1 2))
  = [onAxis (- (1 / 64)) (- (1 / 16)); onAxis (3 / 8) (- (1 / 2))].
Proof.
  unfold RealData.stepPair, grid, launch;
    cbn [Nat.mul Nat.add seq rev app fold_left].
  rewrite (updateParticles_at _ _ _ _ _ _ 1 RealData.pair0 (onAxis (1 / 2) 0))
    by (reflexivity || lia).
  rewrite thread1_first.
  change (<[1%nat := onAxis (3 / 8) (- (1 / 2))]> RealData.pair0)
    with [onAxis (F := R) 0 0; onAxis (3 / 8) (- (1 / 2))].
  rewrite (updateParticles_at _ _ _ _ _ _ 0 _ (onAxis 0 0))
    by (reflexivity || lia).
  now rewrite thread0_second.
Qed.

(** C1 as stated fails: two particles of one colour at rest at x = 0 and
    x = 1/2 (time step 1/4, beta 1/2, no friction) end at x = 1/8 and 33/64
    when the threads run in index order, and at x = -1/64 and 3/8 when they
    run in reverse order. *)
Lemma reverse_order_differs :
  RealData.stepPair (grid 1 2)
    = [onAxis (1 / 8) (1 / 2); onAxis (33 / 64) (1 / 16)] /\
  RealData.stepPair (rev (grid 1 2))
    = [onAxis (- (1 / 64)) (- (1 / 16)); onAxis (3 / 8) (- (1 / 2))] /\
  RealData.stepPair (grid 1 2) <> RealData.stepPair (rev (grid 1 2)).
Proof.
  split; [apply stepPair_forward | split; [apply stepPair_reverse |]].
  rewrite stepPair_forward, stepPair_reverse; unfold onAxis; cbn.
  intros Heq; injection Heq; intros; lra.
Qed.

(** The same run in binary32 arithmetic (all values are dyadic, so it is
    exact). *)
Remark reverse_order_differs_binary32 :
  FloatData.stepPair (grid 1 2) <> FloatData.stepPair (rev (grid 1 2)).
Proof. vm_compute; discriminate. Qed.

Lemma launch_in_place_witness :
  RealData.stepPair ([0%nat] ++ 1%nat :: []) !! 1%nat
  = newParticle [1] 2 (1 / 4) 1 (1 / 2) 1 1 (RealData.stepPair [0%nat])
      <$> (RealData.stepPair [0%nat] !! 1%nat).
Proof.
  apply (launch_in_place [1] 2 (1 / 4) 1 (1 / 2) 1 [0%nat] [] 1%nat RealData.pair0).
  - apply not_elem_of_nil.
  - lia.
Defined.

(** ** A particle alone *)





(** ** Normalisation and division by zero *)

Lemma length_nonneg (v : float3 R) : 0 <= length v.
Proof. unfold length; real_ops; apply sqrt_pos. Qed.

Lemma length_zero (v : float3 R) : length v = 0 -> v = make_float3 0 0 0.
Proof.
  destruct v as [vx vy vz]; unfold length; cbn [x y z]; real_ops; intros Hlen.
  apply sqrt_eq_0 in Hlen; [| nra].
  assert (vx = 0) by nra; assert (vy = 0) by nra; assert (vz = 0) by nra.
  now subst.
Qed.

Lemma normalize_zero_length (v : float3 R) :
  length v = 0 -> normalize v = make_float3 0 0 0.
Proof.
  intros Hlen; unfold normalize; real_ops.
  rewrite Hlen, Rltb_false by lra.
  now apply length_zero.
Qed.

Lemma normalize_positive (v : float3 R) :
  0 < length v ->
  normalize v = make_float3 (x v / length v) (y v / length v) (z v / length v).
Proof.
  intros Hlen; unfold normalize; real_ops; now rewrite Rltb_true.
Qed.

Section CheckedRun.
Import Checked.

Lemma cdiv_nonzero (a b : R) : b <> 0 -> cdiv (Some a) (Some b) = Some (a / b).
Proof.
  intros Hb; unfold cdiv; destruct (Req_dec_T b 0); [contradiction | reflexivity].
Qed.

Lemma checked_length (v : float3 R) : length (inj3 v) = Some (length v).
Proof. reflexivity. Qed.

Lemma checked_normalize (v : float3 R) : normalize (inj3 v) = inj3 (normalize v).
Proof.
  unfold normalize; rewrite checked_length.
  cbn [fltb of_int fdiv checked_ops R_ops cltb].
  destruct (Rltb 0 (length v)) eqn:Hlen; [| reflexivity].
  apply Rltb_lt in Hlen.
  unfold inj3 at 1 2 3; cbn [x y z].
  rewrite !cdiv_nonzero by lra; reflexivity.
Qed.

Lemma checked_calculateForce (distance attractionFactor beta : R) :
  0 <= distance ->
  calculateForce (Some distance) (Some attractionFactor) (Some beta)
  = Some (calculateForce distance attractionFactor beta).
Proof.
  intros Hd; unfold calculateForce.
  cbn [fltb of_int fdiv fsub fmul checked_ops R_ops cltb lift2].
  destruct (Rltb distance beta) eqn:Hrep.
  - apply Rltb_lt in Hrep; rewrite cdiv_nonzero by lra; reflexivity.
  - destruct (Rltb distance 1) eqn:Hmid; [| reflexivity].
    apply Rltb_lt in Hmid.
    assert (Hge : beta <= distance).
    { destruct (Rle_dec beta distance) as [Hle | Hnle]; [exact Hle |].
      rewrite Rltb_true in Hrep by lra; discriminate. }
    rewrite cdiv_nonzero by lra; reflexivity.
Qed.

Lemma checked_readMatrix (attractionMatrix : list R) (k : Z) :
  readMatrix (Some <$> attractionMatrix) k = Some (readMatrix attractionMatrix k).
Proof.
  unfold readMatrix; destruct (k <? 0)%Z; [reflexivity |].
  rewrite list_lookup_fmap.
  now destruct (attractionMatrix !! Z.to_nat k).
Qed.

Lemma checked_accumulate (attractionMatrix : list R) (numColors : Z) (beta : R)
    (self other : Particle R) (force : float3 R) :
  accumulate (Some <$> attractionMatrix) numColors (Some beta)
    (injP self) (injP other) (inj3 force)
  = inj3 (accumulate attractionMatrix numColors beta self other force).
Proof.
  unfold accumulate.
  set (diff := make_float3 (x (position other) - x (position self))%fl
                           (y (position other) - y (position self))%fl
                           (z (position other) - z (position self))%fl).
  change (make_float3
            (x (position (injP other)) - x (position (injP self)))%fl
            (y (position (injP other)) - y (position (injP self)))%fl
            (z (position (injP other)) - z (position (injP self)))%fl)
    with (inj3 diff).
  rewrite checked_length, checked_normalize, checked_readMatrix.
  cbn [fltb of_int checked_ops R_ops cltb].
  destruct (Rltb (length diff) 1); [| reflexivity].
  change (color (injP self)) with (color self).
  change (color (injP other)) with (color other).
  rewrite checked_calculateForce by apply length_nonneg.
  reflexivity.
Qed.

Lemma checked_forceLoop (attractionMatrix : list R) (numColors : Z) (beta : R)
    (particles : list (Particle R)) (numParticles idx : nat) (self : Particle R) :
  forceLoop (Some <$> attractionMatrix) numColors (Some beta)
    (injP <$> particles) numParticles idx (injP self)
  = inj3 (forceLoop attractionMatrix numColors beta particles numParticles idx self).
Proof.
  unfold forceLoop.
  change (make_float3 (of_int 0) (of_int 0) (of_int 0))
    with (inj3 (make_float3 (of_int 0) (of_int 0) (of_int 0))) at 1.
  generalize (make_float3 (F := R) (of_int 0) (of_int 0) (of_int 0)) as force.
  induction (seq 0 numParticles) as [| j js IH]; intros force; [reflexivity |].
  cbn [fold_left]; rewrite <- IH; f_equal.
  destruct (j =? idx)%nat; [reflexivity |].
  rewrite list_lookup_fmap.
  destruct (particles !! j) as [other |]; [| reflexivity].
  apply checked_accumulate.
Qed.
End CheckedRun.

Section Checked32Run.
Import Checked32.
#[local] Existing Instance Binary32.binary32_ops.

Lemma guard_nonzero32 (a : Binary32.binary32) :
  SFltb (Binary32.of_int 0) a = true -> isZero a = false.
Proof.
  destruct a as [s | s | | s m e]; cbn; intros Hlt;
    [discriminate | reflexivity | reflexivity | reflexivity].
Qed.

Lemma cdiv32_nonzero (a b : Binary32.binary32) :
  isZero b = false ->
  cdiv (Some a) (Some b) = Some (SFdiv Binary32.prec Binary32.emax a b).
Proof. intros Hb; unfold cdiv; now rewrite Hb. Qed.

Lemma checked32_length (w : float3 Binary32.binary32) :
  length (inj3 w) = Some (length w).
Proof. reflexivity. Qed.

Lemma checked32_normalize (w : float3 Binary32.binary32) :
  normalize (inj3 w) = inj3 (normalize w).
Proof.
  unfold normalize; rewrite checked32_length.
  cbn [fltb of_int fdiv checked32_ops Binary32.binary32_ops cltb].
  destruct (SFltb (Binary32.of_int 0) (length w)) eqn:Hlen; [| reflexivity].
  apply guard_nonzero32 in Hlen.
  unfold inj3 at 1 2 3; cbn [x y z].
  now rewrite !cdiv32_nonzero by assumption.
Qed.

Lemma checked32_calculateForce (distance attractionFactor beta : Binary32.binary32) :
  isZero beta = false ->
  isZero (SFsub Binary32.prec Binary32.emax (Binary32.of_int 1) beta) = false ->
  calculateForce (Some distance) (Some attractionFactor) (Some beta)
  = Some (calculateForce distance attractionFactor beta).
Proof.
  intros Hbeta Hrest; unfold calculateForce.
  cbn [fltb of_int fdiv fsub fmul checked32_ops Binary32.binary32_ops cltb lift2].
  destruct (SFltb distance beta).
  - now rewrite cdiv32_nonzero.
  - destruct (SFltb distance (Binary32.of_int 1)); [| reflexivity].
    now rewrite cdiv32_nonzero.
Qed.

Lemma checked32_readMatrix (attractionMatrix : list Binary32.binary32) (k : Z) :
  readMatrix (Some <$> attractionMatrix) k = Some (readMatrix attractionMatrix k).
Proof.
  unfold readMatrix; destruct (k <? 0)%Z; [reflexivity |].
  rewrite list_lookup_fmap.
  now destruct (attractionMatrix !! Z.to_nat k).
Qed.

Lemma checked32_accumulate (attractionMatrix : list Binary32.binary32)
    (numColors : Z) (beta : Binary32.binary32)
    (self other : Particle Binary32.binary32) (force : float3 Binary32.binary32) :
  isZero beta = false ->
  isZero (SFsub Binary32.prec Binary32.emax (Binary32.of_int 1) beta) = false ->
  accumulate (Some <$> attractionMatrix) numColors (Some beta)
    (injP self) (injP other) (inj3 force)
  = inj3 (accumulate attractionMatrix numColors beta self other force).
Proof.
  intros Hbeta Hrest; unfold accumulate.
  set (diff := make_float3 (x (position other) - x (position self))%fl
                           (y (position other) - y (position self))%fl
                           (z (position other) - z (position self))%fl).
  change (make_float3
            (x (position (injP other)) - x (position (injP self)))%fl
            (y (position (injP other)) - y (position (injP self)))%fl
            (z (position (injP other)) - z (position (injP self)))%fl)
    with (inj3 diff).
  rewrite checked32_length, checked32_normalize, checked32_readMatrix.
  cbn [fltb of_int checked32_ops Binary32.binary32_ops cltb].
  destruct (SFltb (length diff) (Binary32.of_int 1)); [| reflexivity].
  change (color (injP self)) with (color self).
  change (color (injP other)) with (color other).
  now rewrite checked32_calculateForce.
Qed.

Lemma checked32_forceLoop (attractionMatrix : list Binary32.binary32)
    (numColors : Z) (beta : Binary32.binary32)
    (particles : list (Particle Binary32.binary32)) (numParticles idx : nat)
    (self : Particle Binary32.binary32) :
  isZero beta = false ->
  isZero (SFsub Binary32.prec Binary32.emax (Binary32.of_int 1) beta) = false ->
  forceLoop (Some <$> attractionMatrix) numColors (Some beta)
    (injP <$> particles) numParticles idx (injP self)
  = inj3 (forceLoop attractionMatrix numColors beta particles numParticles idx self).
Proof.
  intros Hbeta Hrest; unfold forceLoop.
  change (make_float3 (of_int 0) (of_int 0) (of_int 0))
    with (inj3 (make_float3 (of_int 0) (of_int 0) (of_int 0))) at 1.
  generalize (make_float3 (F := Binary32.binary32) (of_int 0) (of_int 0) (of_int 0))
    as force.
  induction (seq 0 numParticles) as [| j js IH]; intros force; [reflexivity |].
  cbn [fold_left]; rewrite <- IH; f_equal.
  destruct (j =? idx)%nat; [reflexivity |].
  rewrite list_lookup_fmap.
  destruct (particles !! j) as [other |]; [| reflexivity].
  now apply checked32_accumulate.
Qed.
End Checked32Run.

Lemma length_is_euclid (v : float3 R) : length v = euclid v.
Proof. reflexivity. Qed.

Lemma euclid_normalized (v : float3 R) : 0 < euclid v -> euclid (normalize v) = 1.
Proof.
  intros Hpos; rewrite <- length_is_euclid in Hpos.
  rewrite normalize_positive by assumption.
  assert (Hsq : length v * length v = x v * x v + y v * y v + z v * z v).
  { unfold length; real_ops; apply sqrt_sqrt; nra. }
  unfold euclid; cbn [x y z].
  replace (x v / length v * (x v / length v) + y v / length v * (y v / length v)
           + z v / length v * (z v / length v))
    with ((x v * x v + y v * y v + z v * z v) / (length v * length v))
    by (field; lra).
  rewrite <- Hsq.
  replace (length v * length v / (length v * length v)) with (1 * 1) by (field; lra).
  apply sqrt_square; lra.
Qed.

(** C9 (amended): [normalize] leaves its argument as it is when the computed
    length sqrtf(x*x + y*y + z*z) is not greater than 0 and divides each
    component by that computed length otherwise, so its divisor is never
    zero; neither it nor the force loop divides by zero (in binary32 for
    beta and 1 - beta other than 0, over the reals for every beta).  Over the
    reals the computed length is the Euclidean length: a vector of length
    zero is the zero vector and is returned, one of positive length is
    returned divided by its Euclidean length and has length 1 afterwards. *)
Theorem normalize_guarded
    (v : float3 R) (attractionMatrix : list R) (numColors : Z) (beta : R)
    (particles : list (Particle R)) (numParticles idx : nat) (self : Particle R)
    (w : float3 Binary32.binary32) (attractionMatrix32 : list Binary32.binary32)
    (beta32 : Binary32.binary32) (particles32 : list (Particle Binary32.binary32))
    (self32 : Particle Binary32.binary32) :
  Checked32.isZero beta32 = false ->
  Checked32.isZero
    (SFsub Binary32.prec Binary32.emax (Binary32.of_int 1) beta32) = false ->
  (length v = euclid v /\
   (euclid v = 0 -> v = make_float3 0 0 0 /\ normalize v = make_float3 0 0 0) /\
   (0 < euclid v ->
    normalize v = make_float3 (x v / euclid v) (y v / euclid v) (z v / euclid v) /\
    euclid (normalize v) = 1)) /\
  (length (H := Binary32.binary32_ops) w
   = SFsqrt Binary32.prec Binary32.emax
       (SFadd Binary32.prec Binary32.emax
          (SFadd Binary32.prec Binary32.emax
             (SFmul Binary32.prec Binary32.emax (x w) (x w))
             (SFmul Binary32.prec Binary32.emax (y w) (y w)))
          (SFmul Binary32.prec Binary32.emax (z w) (z w))) /\
   (SFltb (Binary32.of_int 0) (length (H := Binary32.binary32_ops) w) = false ->
    normalize (H := Binary32.binary32_ops) w = w) /\
   (SFltb (Binary32.of_int 0) (length (H := Binary32.binary32_ops) w) = true ->
    Checked32.isZero (length (H := Binary32.binary32_ops) w) = false /\
    normalize (H := Binary32.binary32_ops) w
    = make_float3
        (SFdiv Binary32.prec Binary32.emax (x w)
           (length (H := Binary32.binary32_ops) w))
        (SFdiv Binary32.prec Binary32.emax (y w)
           (length (H := Binary32.binary32_ops) w))
        (SFdiv Binary32.prec Binary32.emax (z w)
           (length (H := Binary32.binary32_ops) w)))) /\
  (normalize (H := Checked.checked_ops) (Checked.inj3 v)
   = Checked.inj3 (normalize v) /\
   forceLoop (H := Checked.checked_ops) (Some <$> attractionMatrix) numColors
     (Some beta) (Checked.injP <$> particles) numParticles idx (Checked.injP self)
   = Checked.inj3
       (forceLoop attractionMatrix numColors beta particles numParticles idx self)) /\
  (normalize (H := Checked32.checked32_ops) (Checked32.inj3 w)
   = Checked32.inj3 (normalize (H := Binary32.binary32_ops) w) /\
   forceLoop (H := Checked32.checked32_ops) (Some <$> attractionMatrix32) numColors
     (Some beta32) (Checked32.injP <$> particles32) numParticles idx
     (Checked32.injP self32)
   = Checked32.inj3
       (forceLoop (H := Binary32.binary32_ops) attractionMatrix32 numColors beta32
          particles32 numParticles idx self32)).
Proof.
  intros Hbeta Hrest; split; [| split; [| split]].
  - split; [apply length_is_euclid | split].
    + intros Hzero; rewrite <- length_is_euclid in Hzero.
      split; [now apply length_zero | now apply normalize_zero_length].
    + intros Hpos; split; [| now apply euclid_normalized].
      rewrite <- !length_is_euclid in *; now apply normalize_positive.
  - split; [reflexivity | split].
    + intros Hguard; unfold normalize.
      cbn [fltb of_int Binary32.binary32_ops]; now rewrite Hguard.
    + intros Hguard; split; [now apply guard_nonzero32 |].
      unfold normalize at 1.
      cbn [fltb of_int fdiv Binary32.binary32_ops]; now rewrite Hguard.
  - split; [apply checked_normalize | apply checked_forceLoop].
  - split; [apply checked32_normalize | now apply checked32_forceLoop].
Qed.

Lemma normalize_guarded_witness :
  (0 < euclid (make_float3 3 4 0) ->
   normalize (make_float3 3 4 0)
   = make_float3 (3 / euclid (make_float3 3 4 0)) (4 / euclid (make_float3 3 4 0))
                 (0 / euclid (make_float3 3 4 0)) /\
   euclid (normalize (make_float3 3 4 0)) = 1) /\
  normalize (H := Checked32.checked32_ops) (Checked32.inj3 FloatData.tiny)
  = Checked32.inj3 (normalize (H := Binary32.binary32_ops) FloatData.tiny) /\
  forceLoop (H := Checked32.checked32_ops) (Some <$> [FloatData.one]) 1
    (Some FloatData.beta) (Checked32.injP <$> FloatData.pair0) 2 0
    (Checked32.injP (onAxis (H := Binary32.binary32_ops) FloatData.one FloatData.one))
  = Checked32.inj3
      (forceLoop (H := Binary32.binary32_ops) [FloatData.one] 1 FloatData.beta
         FloatData.pair0 2 0
         (onAxis (H := Binary32.binary32_ops) FloatData.one FloatData.one)).
Proof.
  destruct (normalize_guarded (make_float3 3 4 0) [1] 1 (1 / 2) RealData.pair0 2 0
              (onAxis 0 0) FloatData.tiny [FloatData.one] FloatData.beta
              FloatData.pair0
              (onAxis (H := Binary32.binary32_ops) FloatData.one FloatData.one))
    as ((_ & _ & Hunit) & _ & _ & (Hnorm & Hloop)).
  - vm_compute; reflexivity.
  - vm_compute; reflexivity.
  - exact (conj Hunit (conj Hnorm Hloop)).
Defined.

(** C9 as stated fails in binary32.  The vector (2^-100, 0, 0) is not the
    zero vector, yet its computed length is 0 and [normalize] returns it as
    it is, not divided by its Euclidean length 2^-100 (that would be
    (1, 0, 0)); the vector (2^100, 0, 0) has positive length and comes back
    as the zero vector, its computed length being infinite. *)
Lemma normalize_not_euclidean_binary32 :
  (FloatData.tiny <> FloatData.zero3 /\
   length (H := Binary32.binary32_ops) FloatData.tiny = S754_zero false /\
   normalize (H := Binary32.binary32_ops) FloatData.tiny = FloatData.tiny) /\
  (make_float3
     (SFdiv Binary32.prec Binary32.emax (x FloatData.tiny) (Binary32.dyadic 1 (-100)))
     (SFdiv Binary32.prec Binary32.emax (y FloatData.tiny) (Binary32.dyadic 1 (-100)))
     (SFdiv Binary32.prec Binary32.emax (z FloatData.tiny) (Binary32.dyadic 1 (-100)))
   = make_float3 FloatData.one (Binary32.of_int 0) (Binary32.of_int 0) /\
   normalize (H := Binary32.binary32_ops) FloatData.tiny
   <> make_float3 FloatData.one (Binary32.of_int 0) (Binary32.of_int 0)) /\
  (length (H := Binary32.binary32_ops) FloatData.huge = S754_infinity false /\
   normalize (H := Binary32.binary32_ops) FloatData.huge = FloatData.zero3).
Proof.
  repeat apply conj; vm_compute; (reflexivity || discriminate).
Qed.

(** ** Initialisation *)

(** C8: [initParticles], launched over the grid, gives every particle index
    below [numParticles] velocity zero and colour index mod numColors, so the
    colour c occurs numParticles / numColors times, and once more when
    c < numParticles mod numColors; each position coordinate is 2 u - 1 for
    the next draw u of the stream set up from the seed and the index, hence
    in [-1, 1] for draws in (0, 1]. *)
Theorem initParticles_round_robin
    (curandState : Type) (curand_init : Z -> nat -> Z -> curandState)
    (curand_uniform : curandState -> R * curandState)
    (blocksPerGrid threadsPerBlock numParticles : nat) (numColors seed : Z)
    (particles : list (Particle R)) (idx : nat) (c : Z) :
  (forall state, 0 < fst (curand_uniform state) <= 1) ->
  (0 < numColors)%Z ->
  (numParticles <= blocksPerGrid * threadsPerBlock)%nat ->
  (numParticles <= Datatypes.length particles)%nat ->
  (idx < numParticles)%nat ->
  (0 <= c < numColors)%Z ->
  let mem :=
    launch (initParticles curandState curand_init curand_uniform numParticles
              numColors seed)
           (grid blocksPerGrid threadsPerBlock) particles in
  let d1 := curand_uniform (curand_init seed idx 0%Z) in
  let d2 := curand_uniform (snd d1) in
  let d3 := curand_uniform (snd d2) in
  (exists p,
     mem !! idx = Some p /\
     velocity p = make_float3 0 0 0 /\
     color p = (Z.of_nat idx mod numColors)%Z /\
     position p = make_float3 (fst d1 * 2 - 1) (fst d2 * 2 - 1) (fst d3 * 2 - 1) /\
     inClosed3 (position p)) /\
  Z.of_nat (count_occ Z.eq_dec (color <$> take numParticles mem) c)
  = (Z.of_nat numParticles / numColors
     + (if c <? Z.of_nat numParticles mod numColors then 1 else 0))%Z.
Proof.
  intros Hrange HC Hgrid Hlen Hidx Hc mem d1 d2 d3; split.
  - exists (initialParticle curandState curand_init curand_uniform numColors seed idx).
    split.
    { apply launch_init_lookup; [apply elem_of_seq | |]; lia. }
    split; [apply (initial_velocity (H := R_ops)) |].
    split; [rewrite initial_color; apply Z.rem_mod_nonneg; lia |].
    rewrite initial_position; fold d1 d2 d3; real_ops.
    split; [reflexivity |].
    pose proof (Hrange (curand_init seed idx 0%Z)) as H1.
    pose proof (Hrange (snd d1)) as H2.
    pose proof (Hrange (snd d2)) as H3.
    fold d1 in H1; fold d2 in H2; fold d3 in H3.
    unfold inClosed3, inClosed; cbn [x y z]; lra.
  - subst mem; rewrite launch_init_grid by assumption.
    rewrite <- list_fmap_compose.
    rewrite <- (round_robin_count numColors c numParticles HC Hc).
    do 2 f_equal; apply list_fmap_ext; intros i k _; cbn.
    apply initial_color.
Qed.

Lemma initParticles_round_robin_witness :
  (exists p,
     launch (initParticles nat RealData.toyInit RealData.toyUniform 2 2 42)
       (grid 1 2) RealData.blank !! 1%nat = Some p /\
     velocity p = make_float3 0 0 0 /\
     color p = (Z.of_nat 1 mod 2)%Z /\
     position p = make_float3 (1 / 2 * 2 - 1) (1 / 2 * 2 - 1) (1 / 2 * 2 - 1) /\
     inClosed3 (position p)) /\
  Z.of_nat
    (count_occ Z.eq_dec
       (color <$> take 2
          (launch (initParticles nat RealData.toyInit RealData.toyUniform 2 2 42)
             (grid 1 2) RealData.blank)) 1%Z)
  = (Z.of_nat 2 / 2 + (if 1 <? Z.of_nat 2 mod 2 then 1 else 0))%Z.
Proof.
  apply (initParticles_round_robin nat RealData.toyInit RealData.toyUniform
           1 2 2 2 42 RealData.blank 1 1);
    try (cbn; lia).
  intros state; cbn; lra.
Defined.

(** ** The attraction matrix of the source *)

Lemma attraction_matrix_built_and_kept_witness :
  buildAttractionMatrix (F := R) Reference.numColors (replicate 25 0)
    !! (1 * Reference.numColors + 3)%nat
    = Some (if (1 =? 3)%nat then of_int 1 else of_int (-1)) /\
  d_attractionMatrix
    (frames 3 1 1 1 Reference.deltaTime 5 Reference.beta Reference.frictionFactor
       (mkDevice [RealData.leaving]
          (buildAttractionMatrix Reference.numColors (replicate 25 0))))
  = buildAttractionMatrix Reference.numColors (replicate 25 0).
Proof.
  apply (attraction_matrix_built_and_kept (F := R) Reference.numColors 1 3
           (replicate 25 0) 3 1 1 1 Reference.deltaTime 5 Reference.beta
           Reference.frictionFactor [RealData.leaving]);
    unfold Reference.numColors; cbn; lia.
Defined.

(** The grid of the source, 40 blocks of 256 threads, has a thread for each
    of its 10000 particles. *)
Remark reference_grid_covers :
  (Reference.numParticles
   <= Reference.blocksPerGrid * Reference.threadsPerBlock)%nat.
Proof. apply Nat.leb_le; vm_compute; reflexivity. Qed.

(** ** The same runs in binary32 *)

Section Binary32Runs.
Import Binary32.

(** Whatever the coordinate, after the wrap it neither exceeds 1.0 nor is
    below -1.0 as the device compares floats (a NaN, which the wrap leaves in
    place, compares false both ways). *)
Remark wrap_binary32 (self : Particle Binary32.binary32) :
  let q := position (wrap self) in
  SFltb (Binary32.of_int 1) (x q) = false /\ SFltb (x q) (Binary32.of_int (-1)) = false /\
  SFltb (Binary32.of_int 1) (y q) = false /\ SFltb (y q) (Binary32.of_int (-1)) = false /\
  SFltb (Binary32.of_int 1) (z q) = false /\ SFltb (z q) (Binary32.of_int (-1)) = false.
Proof.
  destruct self as [[px py pz] v c]; unfold wrap;
    cbn [position x y z fltb of_int Binary32.binary32_ops].
  repeat apply conj;
    match goal with
    | |- context [if SFltb ?a ?c then _ else _] =>
        destruct (SFltb a c) eqn:Hhi;
        [ reflexivity
        | match goal with
          | |- context [if SFltb ?c' ?b then _ else _] =>
              destruct (SFltb c' b) eqn:Hlo; [reflexivity | assumption]
          end ]
    end.
Qed.

(** The lone particle of the run above reaches x = 1.0 in binary32 too. *)
Remark position_reaches_one_binary32 :
  x (position (default FloatData.leaving
                 (d_particles (FloatData.loneFrames 1) !! 0%nat)))
  = Binary32.of_int 1.
Proof. vm_compute; reflexivity. Qed.

(** In binary32 the guard of [normalize] also covers a vector whose computed
    length underflows to 0: it is returned as it is, undivided. *)
Remark normalize_underflow_binary32 :
  length FloatData.tiny = S754_zero false /\
  normalize FloatData.tiny = FloatData.tiny.
Proof. split; vm_compute; reflexivity. Qed.
End Binary32Runs.

(** ** The palette *)

(** X8: [initColors], launched with one thread per colour, gives every
    palette entry below [numColors] alpha 1.0 and three channels in (0, 1]
    (for draws in (0, 1]); entries from [numColors] on and the size of the
    array are left as they were. *)
Theorem initColors_palette
    (curandState : Type) (curand_init : Z -> nat -> Z -> curandState)
    (curand_uniform : curandState -> R * curandState)
    (numColors seed : Z) (colors : list (float4 R)) (idx : nat) :
  (forall state, 0 < fst (curand_uniform state) <= 1) ->
  (Z.of_nat idx < numColors)%Z ->
  (idx < Datatypes.length colors)%nat ->
  let mem :=
    launch (initColors curandState curand_init curand_uniform numColors seed)
           (grid 1 (Z.to_nat numColors)) colors in
  (exists c,
     mem !! idx = Some c /\ w4 c = 1 /\
     0 < x4 c <= 1 /\ 0 < y4 c <= 1 /\ 0 < z4 c <= 1) /\
  (forall j, (numColors <= Z.of_nat j)%Z -> mem !! j = colors !! j) /\
  Datatypes.length mem = Datatypes.length colors.
Proof.
  intros Hrange Hidx Hlen mem; subst mem; split; [| split].
  - exists (initialColor curandState curand_init curand_uniform seed idx).
    rewrite initColors_lookup.
    rewrite (proj2 (Z.ltb_lt _ _) Hidx), (proj2 (Nat.ltb_lt _ _) Hlen).
    split; [reflexivity |].
    unfold initialColor.
    pose proof (Hrange (curand_init seed idx 0%Z)) as H1.
    destruct (curand_uniform (curand_init seed idx 0%Z)) as [u1 s1].
    pose proof (Hrange s1) as H2; destruct (curand_uniform s1) as [u2 s2].
    pose proof (Hrange s2) as H3; destruct (curand_uniform s2) as [u3 s3].
    cbn in *; repeat split; lra.
  - intros j Hj; rewrite initColors_lookup.
    destruct (Z.ltb_spec (Z.of_nat j) numColors); [lia | reflexivity].
  - apply (own_slot_length _ _ _
             (initColors_shape curandState curand_init curand_uniform numColors seed)).
Qed.

Lemma initColors_palette_witness :
  (exists c,
     launch (initColors nat RealData.toyInit RealData.toyUniform 2 42)
       (grid 1 (Z.to_nat 2)) RealData.blankColors !! 1%nat = Some c /\
     w4 c = 1 /\ 0 < x4 c <= 1 /\ 0 < y4 c <= 1 /\ 0 < z4 c <= 1) /\
  (forall j, (2 <= Z.of_nat j)%Z ->
     launch (initColors nat RealData.toyInit RealData.toyUniform 2 42)
       (grid 1 (Z.to_nat 2)) RealData.blankColors !! j
     = RealData.blankColors !! j) /\
  Datatypes.length
    (launch (initColors nat RealData.toyInit RealData.toyUniform 2 42)
       (grid 1 (Z.to_nat 2)) RealData.blankColors)
  = Datatypes.length RealData.blankColors.
Proof.
  apply (initColors_palette nat RealData.toyInit RealData.toyUniform 2 42
           RealData.blankColors 1).
  - intros state; cbn; lra.
  - lia.
  - cbn; lia.
Defined.

(** ** More on the force law *)

Lemma unit_ratio (u den : R) : 0 < den -> 0 < u <= den -> 0 < u / den <= 1.
Proof.
  intros Hden [Hu Hle]; split.
  - now apply Rdiv_lt_0_compat.
  - apply (Rmult_le_reg_r den); [assumption |].
    unfold Rdiv; rewrite Rmult_assoc, Rinv_l by lra; lra.
Qed.

Lemma repulsive_range (distance beta : R) :
  0 <= distance < beta -> -1 <= distance / beta - 1 < 0.
Proof.
  intros [Hd Hlt]; rewrite repulsive_closed_form by lra.
  destruct (unit_ratio (beta - distance) beta); lra.
Qed.

(** X9: for distance >= 0, attraction in [-1,1] and beta in (0,1) the force
    magnitude never exceeds 2; below beta the force lies in [-1, 0) whatever
    the attraction, and from beta up to 1 its absolute value is at most
    twice that of the attraction. *)
Theorem calculateForce_bounded (distance attraction beta : R) :
  0 <= distance -> -1 <= attraction <= 1 -> 0 < beta < 1 ->
  -2 <= calculateForce distance attraction beta <= 2 /\
  (distance < beta -> -1 <= calculateForce distance attraction beta < 0) /\
  (beta <= distance < 1 ->
   Rabs (calculateForce distance attraction beta) <= 2 * Rabs attraction).
Proof.
  intros Hd Ha Hb.
  assert (Hmid : beta <= distance < 1 ->
                 Rabs (calculateForce distance attraction beta) <= 2 * Rabs attraction).
  { intros Hin; rewrite calculateForce_mid, mid_closed_form by lra.
    destruct (unit_ratio (1 - distance) (1 - beta)) as [Hlo Hhi]; try lra.
    rewrite !Rabs_mult, (Rabs_right 2), (Rabs_right ((1 - distance) / (1 - beta)))
      by lra.
    pose proof (Rabs_pos attraction); nra. }
  assert (Hrep : distance < beta ->
                 -1 <= calculateForce distance attraction beta < 0).
  { intros Hlt; rewrite calculateForce_repulsive by assumption.
    apply repulsive_range; lra. }
  split; [| split; assumption].
  destruct (Rlt_dec distance beta) as [Hlt | Hge].
  - specialize (Hrep Hlt); lra.
  - destruct (Rlt_dec distance 1) as [Hlt1 | Hge1].
    + specialize (Hmid ltac:(lra)).
      assert (Rabs attraction <= 1) by (apply Rabs_le; lra).
      pose proof (Rle_abs (calculateForce distance attraction beta)) as Hup.
      pose proof (Rle_abs (- calculateForce distance attraction beta)) as Hdown.
      rewrite Rabs_Ropp in Hdown; lra.
    + rewrite calculateForce_far by lra; lra.
Qed.

Lemma calculateForce_bounded_witness :
  -2 <= calculateForce (1 / 2) 1 (1 / 10) <= 2 /\
  (1 / 2 < 1 / 10 -> -1 <= calculateForce (1 / 2) 1 (1 / 10) < 0) /\
  (1 / 10 <= 1 / 2 < 1 ->
   Rabs (calculateForce (1 / 2) 1 (1 / 10)) <= 2 * Rabs 1).
Proof.
  apply (calculateForce_bounded (1 / 2) 1 (1 / 10)); lra.
Defined.

Lemma mid_difference (d1 d2 attraction beta : R) :
  beta < 1 ->
  2 * attraction * ((1 - d1) / (1 - beta)) - 2 * attraction * ((1 - d2) / (1 - beta))
  = 2 * attraction * ((d2 - d1) / (1 - beta)).
Proof. intros Hb; field; lra. Qed.

(** X10: between beta and 1 the force runs linearly from 2 * attraction at
    distance beta through attraction at (1 + beta) / 2 towards 0: it has the
    sign of the attraction throughout and its size strictly decreases with
    the distance. *)
Theorem mid_branch_shape (attraction beta d1 d2 : R) :
  0 < beta < 1 -> beta <= d1 -> d1 < d2 -> d2 < 1 ->
  calculateForce beta attraction beta = 2 * attraction /\
  calculateForce ((1 + beta) / 2) attraction beta = attraction /\
  (0 < attraction ->
   0 < calculateForce d2 attraction beta < calculateForce d1 attraction beta) /\
  (attraction < 0 ->
   calculateForce d1 attraction beta < calculateForce d2 attraction beta < 0) /\
  (attraction = 0 -> calculateForce d1 attraction beta = 0).
Proof.
  intros Hb H1 H12 H2.
  rewrite !calculateForce_mid by lra.
  split; [field; lra | split; [field; lra |]].
  rewrite !mid_closed_form by lra.
  pose proof (mid_difference d1 d2 attraction beta ltac:(lra)) as Hdiff.
  destruct (unit_ratio (1 - d2) (1 - beta)) as [Hpos2 _]; try lra.
  destruct (unit_ratio (d2 - d1) (1 - beta)) as [Hposd _]; try lra.
  repeat apply conj; intros Ha; nra.
Qed.

Lemma mid_branch_shape_witness :
  calculateForce (1 / 10) 1 (1 / 10) = 2 * 1 /\
  calculateForce ((1 + 1 / 10) / 2) 1 (1 / 10) = 1 /\
  (0 < 1 ->
   0 < calculateForce (1 / 2) 1 (1 / 10) < calculateForce (1 / 5) 1 (1 / 10)) /\
  (1 < 0 ->
   calculateForce (1 / 5) 1 (1 / 10) < calculateForce (1 / 2) 1 (1 / 10) < 0) /\
  (1 = 0 -> calculateForce (1 / 5) 1 (1 / 10) = 0).
Proof.
  apply (mid_branch_shape 1 (1 / 10) (1 / 5) (1 / 2)); lra.
Defined.

(** ** Unit vectors and the force between two particles *)

Lemma length_square (v : float3 R) :
  length v * length v = x v * x v + y v * y v + z v * z v.
Proof. unfold length; real_ops; apply sqrt_sqrt; nra. Qed.

Lemma normalize_fixed (v : float3 R) : length v = 1 -> normalize v = v.
Proof.
  intros Hlen; rewrite normalize_positive by lra; rewrite Hlen.
  destruct v as [vx vy vz]; cbn [x y z]; f_equal; field.
Qed.

Lemma normalize_has_length_one (v : float3 R) :
  0 < length v -> length (normalize v) = 1.
Proof.
  intros Hlen; rewrite normalize_positive by assumption.
  pose proof (length_square v) as Hsq.
  unfold length at 1; cbn [x y z]; real_ops.
  apply sqrt_of_square; [lra |].
  replace (x v / length v * (x v / length v) + y v / length v * (y v / length v)
           + z v / length v * (z v / length v))
    with ((x v * x v + y v * y v + z v * z v) / (length v * length v))
    by (field; lra).
  rewrite <- Hsq; field; lra.
Qed.

(** X11: [normalize] returns a vector of length 1 for every vector of
    positive length, and normalising a second time changes nothing, for any
    vector. *)
Theorem normalize_unit (v : float3 R) :
  (0 < length v -> length (normalize v) = 1) /\
  normalize (normalize v) = normalize v.
Proof.
  split; [apply normalize_has_length_one |].
  destruct (Rlt_dec 0 (length v)) as [Hpos | Hzero].
  - now apply normalize_fixed, normalize_has_length_one.
  - assert (Hid : normalize v = v).
    { unfold normalize; real_ops; now rewrite Rltb_false by lra. }
    now rewrite !Hid.
Qed.

Lemma accumulate_unfold (attractionMatrix : list R) (numColors : Z) (beta : R)
    (self other : Particle R) (force : float3 R) :
  accumulate attractionMatrix numColors beta self other force
  = let diff := displacement self other in
    let mag := calculateForce (length diff)
                 (readMatrix attractionMatrix (color self * numColors + color other))
                 beta in
    if Rltb (length diff) 1
    then make_float3 (x force + mag * x (normalize diff))
                     (y force + mag * y (normalize diff))
                     (z force + mag * z (normalize diff))
    else force.
Proof. reflexivity. Qed.

(** X12: a particle at distance 1.0 or more adds nothing to the force, and
    neither does one at exactly the same position: coincident particles do
    not push each other apart. *)
Theorem pair_out_of_reach (attractionMatrix : list R) (numColors : Z) (beta : R)
    (self other : Particle R) (force : float3 R) :
  (1 <= length (displacement self other) ->
   accumulate attractionMatrix numColors beta self other force = force) /\
  (position other = position self ->
   accumulate attractionMatrix numColors beta self other force = force).
Proof.
  rewrite accumulate_unfold; cbn zeta; split.
  - intros Hfar; now rewrite Rltb_false.
  - intros Hsame.
    assert (Hlen : length (displacement self other) = 0).
    { unfold length, displacement; rewrite Hsame; cbn [x y z]; real_ops.
      apply sqrt_of_square; lra. }
    rewrite Hlen, Rltb_true by lra.
    unfold normalize; rewrite Hlen; real_ops; rewrite Rltb_false by lra.
    unfold displacement; rewrite Hsame; cbn [x y z]; real_ops.
    destruct force as [fx fy fz]; cbn [x y z]; f_equal; ring.
Qed.

Lemma quotient_sign (f d : R) :
  0 < d -> (f < 0 -> f / d < 0) /\ (0 < f -> 0 < f / d).
Proof.
  intros Hd; pose proof (Rinv_0_lt_compat d Hd); unfold Rdiv; split; intros; nra.
Qed.

Lemma calculateForce_sign (distance attraction beta : R) :
  0 < beta < 1 -> 0 <= distance ->
  (distance < beta -> calculateForce distance attraction beta < 0) /\
  (beta <= distance < 1 -> 0 < attraction ->
   0 < calculateForce distance attraction beta) /\
  (beta <= distance < 1 -> attraction < 0 ->
   calculateForce distance attraction beta < 0).
Proof.
  intros Hb Hd; repeat apply conj.
  - intros Hlt; rewrite calculateForce_repulsive by assumption.
    apply repulsive_range; lra.
  - intros Hin Ha; rewrite calculateForce_mid, mid_closed_form by lra.
    destruct (unit_ratio (1 - distance) (1 - beta)); try lra; nra.
  - intros Hin Ha; rewrite calculateForce_mid, mid_closed_form by lra.
    destruct (unit_ratio (1 - distance) (1 - beta)); try lra; nra.
Qed.

(** X13: the force one particle adds to another is a multiple k of the
    displacement towards it: k < 0 (pushing away) when they are closer than
    beta, whatever the colours; between beta and 1, k has the sign of the
    attraction factor of the two colours; from 1.0 on, k = 0. *)
Theorem pair_force_direction (attractionMatrix : list R) (numColors : Z)
    (beta : R) (self other : Particle R) :
  0 < beta < 1 -> 0 < length (displacement self other) ->
  let diff := displacement self other in
  let attraction :=
    readMatrix attractionMatrix (color self * numColors + color other) in
  exists k,
    accumulate attractionMatrix numColors beta self other (make_float3 0 0 0)
    = make_float3 (k * x diff) (k * y diff) (k * z diff) /\
    (length diff < beta -> k < 0) /\
    (beta <= length diff < 1 -> 0 < attraction -> 0 < k) /\
    (beta <= length diff < 1 -> attraction < 0 -> k < 0) /\
    (1 <= length diff -> k = 0).
Proof.
  intros Hb Hpos diff attraction; subst diff attraction.
  rewrite accumulate_unfold; cbn zeta.
  set (diff := displacement self other) in *.
  set (attraction :=
         readMatrix attractionMatrix (color self * numColors + color other)).
  clearbody diff attraction.
  assert (Hinv : 0 < / length diff) by now apply Rinv_0_lt_compat.
  destruct (Rlt_dec (length diff) 1) as [Hnear | Hfar].
  - exists (calculateForce (length diff) attraction beta / length diff).
    rewrite Rltb_true, normalize_positive by assumption; cbn [x y z].
    split; [f_equal; field; lra |].
    assert (Hd : 0 <= length diff) by lra.
    destruct (calculateForce_sign (length diff) attraction beta Hb Hd)
      as (Hrep & Hatt & Hrepel).
    destruct (quotient_sign (calculateForce (length diff) attraction beta)
                (length diff) Hpos) as (Hneg & Hposk).
    repeat apply conj; intros; auto; lra.
  - exists 0; rewrite Rltb_false by lra.
    split; [f_equal; ring |].
    repeat apply conj; intros; lra.
Qed.

Lemma pair0_distance :
  length (displacement (onAxis (F := R) 0 0) (onAxis (1 / 2) 0)) = 1 / 2.
Proof.
  unfold length, displacement, onAxis; cbn [position x y z]; real_ops.
  apply sqrt_of_square; lra.
Qed.

Lemma pair_force_direction_witness :
  exists k,
    accumulate [1] 1 (1 / 2) (onAxis 0 0) (onAxis (1 / 2) 0) (make_float3 0 0 0)
    = make_float3 (k * x (displacement (onAxis (F := R) 0 0) (onAxis (1 / 2) 0)))
                  (k * y (displacement (onAxis (F := R) 0 0) (onAxis (1 / 2) 0)))
                  (k * z (displacement (onAxis (F := R) 0 0) (onAxis (1 / 2) 0))) /\
    (length (displacement (onAxis (F := R) 0 0) (onAxis (1 / 2) 0)) < 1 / 2 -> k < 0) /\
    (1 / 2 <= length (displacement (onAxis (F := R) 0 0) (onAxis (1 / 2) 0)) < 1 ->
     0 < readMatrix [1] (color (onAxis (F := R) 0 0) * 1 + color (onAxis (F := R) (1 / 2) 0)) ->
     0 < k) /\
    (1 / 2 <= length (displacement (onAxis (F := R) 0 0) (onAxis (1 / 2) 0)) < 1 ->
     readMatrix [1] (color (onAxis (F := R) 0 0) * 1 + color (onAxis (F := R) (1 / 2) 0)) < 0 ->
     k < 0) /\
    (1 <= length (displacement (onAxis (F := R) 0 0) (onAxis (1 / 2) 0)) -> k = 0).
Proof.
  apply (pair_force_direction [1] 1 (1 / 2) (onAxis 0 0) (onAxis (1 / 2) 0)).
  - lra.
  - rewrite pair0_distance; lra.
Defined.

Lemma length_flip (p q : Particle R) :
  length (displacement q p) = length (displacement p q).
Proof.
  unfold length, displacement; cbn [x y z]; real_ops; f_equal; ring.
Qed.

Lemma normalize_flip (p q : Particle R) :
  x (normalize (displacement q p)) = - x (normalize (displacement p q)) /\
  y (normalize (displacement q p)) = - y (normalize (displacement p q)) /\
  z (normalize (displacement q p)) = - z (normalize (displacement p q)).
Proof.
  unfold normalize; rewrite (length_flip p q); real_ops.
  destruct (Rltb 0 (length (displacement p q))); unfold displacement;
    cbn [x y z]; real_ops; repeat split; unfold Rdiv; ring.
Qed.

(** X14: when the matrix holds the same attraction factor for the two
    orders of a pair of colours, the forces two particles add to each other
    are equal and opposite. *)
Theorem pair_forces_opposite (attractionMatrix : list R) (numColors : Z)
    (beta : R) (p q : Particle R) :
  readMatrix attractionMatrix (color p * numColors + color q)
  = readMatrix attractionMatrix (color q * numColors + color p) ->
  let onP := accumulate attractionMatrix numColors beta p q (make_float3 0 0 0) in
  let onQ := accumulate attractionMatrix numColors beta q p (make_float3 0 0 0) in
  x onP = - x onQ /\ y onP = - y onQ /\ z onP = - z onQ.
Proof.
  intros Hsym onP onQ; subst onP onQ.
  rewrite !accumulate_unfold; cbn zeta.
  rewrite (length_flip p q), Hsym.
  destruct (normalize_flip p q) as (Hx & Hy & Hz).
  destruct (Rltb (length (displacement p q)) 1); cbn [x y z].
  - rewrite Hx, Hy, Hz; repeat split; ring.
  - repeat split; ring.
Qed.

Lemma pair_forces_opposite_witness :
  x (accumulate [1] 1 (1 / 2) (onAxis 0 0) (onAxis (1 / 2) 0) (make_float3 0 0 0))
  = - x (accumulate [1] 1 (1 / 2) (onAxis (1 / 2) 0) (onAxis 0 0) (make_float3 0 0 0)) /\
  y (accumulate [1] 1 (1 / 2) (onAxis 0 0) (onAxis (1 / 2) 0) (make_float3 0 0 0))
  = - y (accumulate [1] 1 (1 / 2) (onAxis (1 / 2) 0) (onAxis 0 0) (make_float3 0 0 0)) /\
  z (accumulate [1] 1 (1 / 2) (onAxis 0 0) (onAxis (1 / 2) 0) (make_float3 0 0 0))
  = - z (accumulate [1] 1 (1 / 2) (onAxis (1 / 2) 0) (onAxis 0 0) (make_float3 0 0 0)).
Proof.
  apply (pair_forces_opposite [1] 1 (1 / 2) (onAxis 0 0) (onAxis (1 / 2) 0)).
  reflexivity.
Defined.

(** ** Wrapping twice, and a field at rest *)

Lemma wrap_as_wrapAxis (self : Particle R) :
  wrap self
  = mkParticle (make_float3 (wrapAxis (x (position self)))
                            (wrapAxis (y (position self)))
                            (wrapAxis (z (position self))))
               (velocity self) (color self).
Proof.
  unfold wrap; real_ops; now rewrite <- !wrapAxis_steps.
Qed.

(** X15: the wrap step is idempotent: wrapping an already wrapped particle
    changes nothing, so every particle a frame has written is a fixed point
    of the wrap. *)
Theorem wrap_idempotent (self : Particle R) (attractionMatrix : list R)
    (numParticles : nat) (deltaTime : R) (numColors : Z)
    (beta frictionFactor : R) (idx : nat) (particles : list (Particle R)) :
  wrap (wrap self) = wrap self /\
  wrap (newParticle attractionMatrix numParticles deltaTime numColors beta
          frictionFactor idx particles self)
  = newParticle attractionMatrix numParticles deltaTime numColors beta
      frictionFactor idx particles self.
Proof.
  assert (Hidem : forall p : Particle R, wrap (wrap p) = wrap p).
  { intros p; rewrite (wrap_as_wrapAxis (wrap p)), (wrap_as_wrapAxis p).
    cbn [position velocity color x y z].
    now rewrite !(wrapAxis_inside (wrapAxis _)) by apply wrapAxis_closed. }
  split; [apply Hidem |].
  unfold newParticle, integrate; apply Hidem.
Qed.

Section Rest.
Variable attractionMatrix : list R.
Variable deltaTime : R.
Variable numColors : Z.
Variables beta frictionFactor : R.

Lemma forceLoop_far (particles : list (Particle R)) (numParticles idx : nat)
    (self : Particle R) :
  farApart particles -> particles !! idx = Some self ->
  forceLoop attractionMatrix numColors beta particles numParticles idx self
  = make_float3 0 0 0.
Proof.
  intros Hfar Hself; unfold forceLoop.
  change (make_float3 (of_int 0) (of_int 0) (of_int 0)) with (make_float3 0 0 0).
  generalize (make_float3 0 0 0) as force.
  induction (seq 0 numParticles) as [| j js IH]; intros force; [reflexivity |].
  cbn [fold_left].
  destruct (Nat.eqb_spec j idx) as [-> | Hne]; [apply IH |].
  destruct (particles !! j) as [other |] eqn:Hother; [| apply IH].
  rewrite accumulate_unfold; cbn zeta.
  rewrite Rltb_false by (eapply Hfar; eauto).
  apply IH.
Qed.

Lemma integrate_at_rest (self : Particle R) :
  atRest self -> integrate deltaTime frictionFactor self (make_float3 0 0 0) = self.
Proof.
  destruct self as [[px py pz] [vx vy vz] c]; intros (Hv & Hx & Hy & Hz).
  cbn [position velocity x y z] in *; injection Hv as -> -> ->.
  unfold integrate; rewrite wrap_as_wrapAxis.
  unfold move; cbn [position velocity color x y z]; real_ops.
  rewrite !wrapAxis_inside by lra.
  f_equal; f_equal; lra.
Qed.

Lemma updateParticles_at_rest (numParticles idx : nat) (particles : list (Particle R)) :
  farApart particles -> Forall atRest particles ->
  updateParticles attractionMatrix numParticles deltaTime numColors beta
    frictionFactor idx particles = particles.
Proof.
  intros Hfar Hrest; unfold updateParticles.
  destruct (idx <? numParticles)%nat; [| reflexivity].
  destruct (particles !! idx) as [self |] eqn:Hself; [| reflexivity].
  apply list_insert_id; rewrite Hself; f_equal.
  unfold newParticle; rewrite forceLoop_far by assumption.
  symmetry; apply integrate_at_rest.
  now apply (Forall_lookup_1 _ _ _ _ Hrest Hself).
Qed.

Lemma launch_at_rest (numParticles : nat) (order : list nat)
    (particles : list (Particle R)) :
  farApart particles -> Forall atRest particles ->
  launch (updateParticles attractionMatrix numParticles deltaTime numColors beta
            frictionFactor) order particles = particles.
Proof.
  intros Hfar Hrest; induction order as [| idx order IH]; [reflexivity |].
  cbn [launch fold_left]; rewrite updateParticles_at_rest by assumption.
  exact IH.
Qed.

(** X16: a field of particles at rest inside the domain, no two of them
    within the interaction radius 1.0, is a fixed point of the simulation:
    a launch in any order, and any number of frames, leave the array exactly
    as it is. *)
Theorem rest_is_fixed (n blocksPerGrid threadsPerBlock numParticles : nat)
    (order : list nat) (particles : list (Particle R)) :
  farApart particles -> Forall atRest particles ->
  launch (updateParticles attractionMatrix numParticles deltaTime numColors beta
            frictionFactor) order particles = particles /\
  d_particles (frames n blocksPerGrid threadsPerBlock numParticles deltaTime
                 numColors beta frictionFactor
                 (mkDevice particles attractionMatrix)) = particles.
Proof.
  intros Hfar Hrest; split; [now apply launch_at_rest |].
  induction n as [| n IH]; [reflexivity |].
  cbn [frames]; unfold frame at 1; cbn [d_particles d_attractionMatrix].
  now rewrite launch_at_rest.
Qed.
End Rest.

Lemma corners_far : farApart RealData.corners.
Proof.
  intros i j p q Hp Hq Hne.
  assert (Hlen : forall a b : R, (a = -1 /\ b = 1) \/ (a = 1 /\ b = -1) ->
            1 <= length (displacement (onAxis (F := R) a 0) (onAxis b 0))).
  { intros a b Hab; unfold length, displacement, onAxis;
      cbn [position x y z]; real_ops.
    rewrite (sqrt_of_square _ 2); [lra | lra |].
    destruct Hab as [[-> ->] | [-> ->]]; lra. }
  destruct i as [| [| i]], j as [| [| j]]; cbn in Hp, Hq;
    try discriminate; try congruence;
    injection Hp as <-; injection Hq as <-; apply Hlen; lra.
Qed.

Lemma corners_rest : Forall atRest RealData.corners.
Proof.
  repeat constructor; cbn; lra.
Qed.

Lemma rest_is_fixed_witness :
  launch (updateParticles [1] 2 Reference.deltaTime 1 Reference.beta
            Reference.frictionFactor) (rev (grid 1 2)) RealData.corners
  = RealData.corners /\
  d_particles (frames 3 1 2 2 Reference.deltaTime 1 Reference.beta
                 Reference.frictionFactor (mkDevice RealData.corners [1]))
  = RealData.corners.
Proof.
  apply (rest_is_fixed [1] Reference.deltaTime 1 Reference.beta
           Reference.frictionFactor 3 1 2 2 (rev (grid 1 2)) RealData.corners
           corners_far corners_rest).
Defined.

(** ** The properties that hold for any arithmetic, read at the reals *)

Lemma initParticles_order_free_witness :
  launch (initParticles nat RealData.toyInit RealData.toyUniform 2 2 42)
    [0; 1]%nat RealData.blank
  = launch (initParticles nat RealData.toyInit RealData.toyUniform 2 2 42)
      [1; 0; 1]%nat RealData.blank /\
  launch (initParticles nat RealData.toyInit RealData.toyUniform 2 2 42)
    (rev (grid 1 2)) RealData.blank
  = launch (initParticles nat RealData.toyInit RealData.toyUniform 2 2 42)
      (grid 1 2) RealData.blank /\
  launch (initParticles nat RealData.toyInit RealData.toyUniform 2 2 42) [0; 1]%nat
    (launch (initParticles nat RealData.toyInit RealData.toyUniform 2 2 42)
       [0; 1]%nat RealData.blank)
  = launch (initParticles nat RealData.toyInit RealData.toyUniform 2 2 42)
      [0; 1]%nat RealData.blank.
Proof.
  apply (initParticles_order_free (F := R) nat RealData.toyInit
           RealData.toyUniform 2 2 42 [0; 1]%nat [1; 0; 1]%nat 1 2 RealData.blank).
  intros j; rewrite !elem_of_cons, !elem_of_nil; tauto.
Defined.

Lemma position_follows_palette_witness :
  exists p c,
    launch (initParticles nat RealData.toyInit RealData.toyUniform 2 2 42)
      (grid 1 2) RealData.blank !! 1%nat = Some p /\
    launch (initColors nat RealData.toyInit RealData.toyUniform 2 42)
      (grid 1 (Z.to_nat 2)) RealData.blankColors !! 1%nat = Some c /\
    position p = make_float3 (x4 c * of_int 2 - of_int 1)%fl
                             (y4 c * of_int 2 - of_int 1)%fl
                             (z4 c * of_int 2 - of_int 1)%fl /\
    w4 c = of_int 1.
Proof.
  apply (position_follows_palette (F := R) nat RealData.toyInit
           RealData.toyUniform 2 2 42 1 2 RealData.blank RealData.blankColors 1);
    cbn; lia.
Defined.

Lemma surplus_threads_idle_witness :
  gridIndices 3 4 = map Z.of_nat (grid 3 4) /\
  launch (updateParticles [1] 2 (1 / 4) 1 (1 / 2) 1) (grid 3 4) RealData.pair0
  = launch (updateParticles [1] 2 (1 / 4) 1 (1 / 2) 1) (seq 0 2) RealData.pair0.
Proof.
  destruct (surplus_threads_idle (F := R) [1] 2 (1 / 4) 1 (1 / 2) 1 3 4
              RealData.pair0) as (Hidx & Hrun & _).
  - lia.
  - lia.
  - reflexivity.
  - exact (conj Hidx Hrun).
Defined.

Lemma lookup_in_built_matrix_witness :
  readMatrix (buildAttractionMatrix (F := R) (Z.to_nat 5) (replicate 25 0))
    (1 * 5 + 3)
  = (if (1 =? 3)%Z then of_int 1 else of_int (-1)) /\
  readMatrix (buildAttractionMatrix (F := R) (Z.to_nat 5) (replicate 25 0))
    (3 * 5 + 1)
  = readMatrix (buildAttractionMatrix (F := R) (Z.to_nat 5) (replicate 25 0))
      (1 * 5 + 3).
Proof.
  apply (lookup_in_built_matrix (F := R) 5 1 3 (replicate 25 0));
    [reflexivity | lia | lia].
Defined.

Lemma matrix_index_in_bounds_witness :
  Forall (fun p =>
            (0 <= color p < 2)%Z /\
            Forall (fun q => (0 <= color p * 2 + color q < 2 * 2)%Z)
              (d_particles
                 (frames 3 1 2 2 Reference.deltaTime 2 Reference.beta
                    Reference.frictionFactor
                    (mkDevice
                       (take 2
                          (launch (initParticles nat RealData.toyInit
                                     RealData.toyUniform 2 2 42)
                             (grid 1 2) RealData.blank))
                       [1; -1; -1; 1]))))
    (d_particles
       (frames 3 1 2 2 Reference.deltaTime 2 Reference.beta
          Reference.frictionFactor
          (mkDevice
             (take 2
                (launch (initParticles nat RealData.toyInit
                           RealData.toyUniform 2 2 42)
                   (grid 1 2) RealData.blank))
             [1; -1; -1; 1]))).
Proof.
  apply (matrix_index_in_bounds (F := R) nat RealData.toyInit RealData.toyUniform
           3 1 2 2 Reference.deltaTime 2 42 Reference.beta
           Reference.frictionFactor RealData.blank [1; -1; -1; 1]);
    cbn; lia.
Defined.

(** ** The size of the accumulated force *)

Lemma calculateForce_within_two (distance attraction beta : R) :
  0 <= distance -> -1 <= attraction <= 1 -> 0 < beta < 1 ->
  -2 <= calculateForce distance attraction beta <= 2.
Proof.
  intros Hd Ha Hb.
  destruct (Rlt_dec distance beta) as [Hlt | Hge].
  - rewrite calculateForce_repulsive by assumption.
    pose proof (repulsive_range distance beta ltac:(lra)); lra.
  - destruct (Rlt_dec distance 1) as [Hlt1 | Hge1].
    + rewrite calculateForce_mid, mid_closed_form by lra.
      destruct (unit_ratio (1 - distance) (1 - beta)); try lra; nra.
    + rewrite calculateForce_far by lra; lra.
Qed.

Lemma normalize_component_bound (v : float3 R) :
  -1 <= x (normalize v) <= 1 /\ -1 <= y (normalize v) <= 1 /\
  -1 <= z (normalize v) <= 1.
Proof.
  destruct (Rlt_dec 0 (length v)) as [Hpos | Hzero].
  - pose proof (length_square (normalize v)) as Hsq.
    rewrite normalize_has_length_one in Hsq by assumption.
    repeat split; nra.
  - pose proof (length_nonneg v).
    rewrite normalize_zero_length by lra; cbn; lra.
Qed.

Lemma readMatrix_range (attractionMatrix : list R) (k : Z) :
  Forall (fun a => -1 <= a <= 1) attractionMatrix ->
  -1 <= readMatrix attractionMatrix k <= 1.
Proof.
  intros Hall; unfold readMatrix; real_ops.
  destruct (k <? 0)%Z; [lra |].
  destruct (attractionMatrix !! Z.to_nat k) as [a |] eqn:Hk; cbn; [| lra].
  exact (Forall_lookup_1 _ _ _ _ Hall Hk).
Qed.

Lemma accumulate_within (attractionMatrix : list R) (numColors : Z) (beta b : R)
    (self other : Particle R) (force : float3 R) :
  Forall (fun a => -1 <= a <= 1) attractionMatrix -> 0 < beta < 1 ->
  within b force ->
  within (b + 2) (accumulate attractionMatrix numColors beta self other force).
Proof.
  intros Hall Hb (Hx & Hy & Hz); rewrite accumulate_unfold; cbn zeta.
  destruct (Rltb (length (displacement self other)) 1);
    [| unfold within; repeat split; lra].
  pose proof (calculateForce_within_two (length (displacement self other))
                (readMatrix attractionMatrix (color self * numColors + color other))
                beta (length_nonneg _) (readMatrix_range _ _ Hall) Hb) as Hmag.
  destruct (normalize_component_bound (displacement self other)) as (Hnx & Hny & Hnz).
  unfold within; cbn [x y z]; repeat split; nra.
Qed.

(** X17: with every matrix entry in [-1,1] and beta in (0,1), each
    component of the force the loop accumulates over [numParticles] array
    slots lies within 2 * numParticles of zero: no neighbour adds more than 2
    to any component. *)
Theorem force_is_bounded (attractionMatrix : list R) (numColors : Z) (beta : R)
    (particles : list (Particle R)) (numParticles idx : nat) (self : Particle R) :
  Forall (fun a => -1 <= a <= 1) attractionMatrix -> 0 < beta < 1 ->
  let force :=
    forceLoop attractionMatrix numColors beta particles numParticles idx self in
  - (2 * INR numParticles) <= x force <= 2 * INR numParticles /\
  - (2 * INR numParticles) <= y force <= 2 * INR numParticles /\
  - (2 * INR numParticles) <= z force <= 2 * INR numParticles.
Proof.
  intros Hall Hb force; subst force; unfold forceLoop.
  assert (Hgen : forall js b f, within b f ->
            within (b + 2 * INR (Datatypes.length js))
              (fold_left
                 (fun force j =>
                    if (j =? idx)%nat then force
                    else match particles !! j with
                         | Some other =>
                             accumulate attractionMatrix numColors beta self other force
                         | None => force
                         end) js f)).
  { induction js as [| j js IH]; intros b f Hf.
    - cbn; unfold within in *; lra.
    - cbn [fold_left Datatypes.length]; rewrite S_INR.
      replace (b + 2 * (INR (Datatypes.length js) + 1))
        with (b + 2 + 2 * INR (Datatypes.length js)) by ring.
      apply IH.
      assert (Hweaken : within (b + 2) f) by (unfold within in *; lra).
      destruct (j =? idx)%nat; [exact Hweaken |].
      destruct (particles !! j); [now apply accumulate_within | exact Hweaken]. }
  specialize (Hgen (seq 0 numParticles) 0
                (make_float3 (of_int 0) (of_int 0) (of_int 0))).
  rewrite length_seq in Hgen.
  unfold within in Hgen; cbn [x y z] in Hgen; real_ops.
  rewrite Rplus_0_l in Hgen; apply Hgen; lra.
Qed.

Lemma force_is_bounded_witness :
  - (2 * INR 2)
  <= x (forceLoop [1] 1 (1 / 2) RealData.pair0 2 0 (onAxis 0 0)) <= 2 * INR 2 /\
  - (2 * INR 2)
  <= y (forceLoop [1] 1 (1 / 2) RealData.pair0 2 0 (onAxis 0 0)) <= 2 * INR 2 /\
  - (2 * INR 2)
  <= z (forceLoop [1] 1 (1 / 2) RealData.pair0 2 0 (onAxis 0 0)) <= 2 * INR 2.
Proof.
  apply (force_is_bounded [1] 1 (1 / 2) RealData.pair0 2 0 (onAxis 0 0)).
  - repeat constructor; lra.
  - lra.
Defined.
